(** * The data-fetch statecharts of pleme-hooks

    A shallow embedding of [src/machines/dataFetch.machine.ts]: the
    single-fetch machine built by [createDataFetchMachine] and the paginated
    machine built by [createPaginatedFetchMachine].

    Both machines are XState v5 statecharts.  A statechart is embedded as
    - a record for its context,
    - an inductive type for its state values and one for its events,
    - one function per named action ([assign] bodies, applied in the order
      the transition lists them, each one reading the context the previous
      one produced),
    - a [step] function: one macrostep of the interpreter on one event.

    Two pieces of interpreter state are explicit in a snapshot, because the
    statecharts rely on them:
    - the actor invoked by the [loading] state.  Entering [loading] starts a
      new actor, leaving [loading] stops it, and the resolution of a stopped
      actor is not delivered.  Every started actor gets a fresh session
      number, and a done/error event names the actor it comes from.
    - the delayed transition of [retrying]: its delay is computed on entry,
      from the context the transition's actions produced.

    [Date.now()] is the [now] argument of [step].  JavaScript numbers are
    integers here ([Z]). *)

From Stdlib Require Import ZArith List String Bool Lia.
Import ListNotations.
Open Scope Z_scope.

(** ** JavaScript values *)

(** The payload type [T] of the machines ranges over JavaScript values; the
    code tests them for truthiness ([context.data], [cache?.data || null]). *)
Inductive JsVal : Type :=
| JNull
| JBool (b : bool)
| JNum (n : Z)
| JStr (s : string)
| JObj (ref : nat).

Definition truthy (v : JsVal) : bool :=
  match v with
  | JNull => false
  | JBool b => b
  | JNum n => negb (n =? 0)
  | JStr s => negb (String.eqb s EmptyString)
  | JObj _ => true
  end.

(** [a || null] *)
Definition orNull (v : JsVal) : JsVal := if truthy v then v else JNull.

(** What a rejected promise carries, when it is not [null]: an [Error]
    object (or any other value), by its message. *)
Definition JsError : Type := string.

Definition unknownError : JsError := "Unknown error"%string.

(** ** The single-fetch machine *)

Module DataFetch.

Record CacheEntry : Type := mkCacheEntry {
  cdata : JsVal;
  timestamp : Z
}.

Record FetchContext : Type := mkFetchContext {
  data : JsVal;
  error : option JsError;
  retries : Z;
  maxRetries : Z;
  retryDelay : Z;
  cache : option CacheEntry;
  cacheTime : Z
}.

(** The declared events, and the three the interpreter raises: the done and
    error events of the invoked [fetchData] actor, and the delayed event of
    [retrying].  The error event carries the reason the promise was rejected
    with, [None] for a rejection with [null]. *)
Inductive FetchEvent : Type :=
| FETCH
| RETRY
| SUCCESS (d : JsVal)
| FAILURE (e : JsError)
| RESET
| CANCEL
| DoneFetchData (actor : nat) (output : JsVal)
| ErrorFetchData (actor : nat) (reason : option JsError)
| AfterDelayedRetry.

Inductive StateValue : Type :=
| Idle
| CheckingCache
| Cached
| Loading
| Retrying
| Success
| Error.

Definition StateValue_eq_dec (a b : StateValue) : {a = b} + {a <> b}.
Proof. decide equality. Defined.

(** *** Actions *)

Definition setData (c : FetchContext) (ev : FetchEvent) : FetchContext :=
  {| data := match ev with
             | DoneFetchData _ output => output
             | _ => JNull
             end;
     error := None;
     retries := retries c; maxRetries := maxRetries c;
     retryDelay := retryDelay c; cache := cache c; cacheTime := cacheTime c |}.

Definition setCachedData (c : FetchContext) : FetchContext :=
  {| data := match cache c with
             | Some entry => orNull (cdata entry)
             | None => JNull
             end;
     error := None;
     retries := retries c; maxRetries := maxRetries c;
     retryDelay := retryDelay c; cache := cache c; cacheTime := cacheTime c |}.

Definition setError (c : FetchContext) (ev : FetchEvent) : FetchContext :=
  {| data := data c;
     error := match ev with
              | ErrorFetchData _ reason => reason
              | FAILURE e => Some e
              | _ => Some unknownError
              end;
     retries := retries c; maxRetries := maxRetries c;
     retryDelay := retryDelay c; cache := cache c; cacheTime := cacheTime c |}.

Definition cacheData (now : Z) (c : FetchContext) : FetchContext :=
  {| data := data c; error := error c;
     retries := retries c; maxRetries := maxRetries c;
     retryDelay := retryDelay c;
     cache := if (cacheTime c >? 0) && truthy (data c)
              then Some {| cdata := data c; timestamp := now |}
              else None;
     cacheTime := cacheTime c |}.

Definition clearCache (c : FetchContext) : FetchContext :=
  {| data := data c; error := error c;
     retries := retries c; maxRetries := maxRetries c;
     retryDelay := retryDelay c; cache := None; cacheTime := cacheTime c |}.

Definition incrementRetries (c : FetchContext) : FetchContext :=
  {| data := data c; error := error c;
     retries := retries c + 1; maxRetries := maxRetries c;
     retryDelay := retryDelay c; cache := cache c; cacheTime := cacheTime c |}.

Definition resetRetries (c : FetchContext) : FetchContext :=
  {| data := data c; error := error c;
     retries := 0; maxRetries := maxRetries c;
     retryDelay := retryDelay c; cache := cache c; cacheTime := cacheTime c |}.

Definition resetContext (c : FetchContext) : FetchContext :=
  {| data := JNull; error := None;
     retries := 0; maxRetries := maxRetries c;
     retryDelay := retryDelay c; cache := None; cacheTime := cacheTime c |}.

(** *** Delays *)

Definition delayedRetry (c : FetchContext) : Z :=
  retryDelay c * (retries c + 1).

(** *** Snapshots *)

(** [child] is the running [fetchData] actor, [timer] the delay of the
    pending delayed transition, [nextId] the session number the next actor
    gets. *)
Record Snapshot : Type := mkSnapshot {
  value : StateValue;
  context : FetchContext;
  child : option nat;
  timer : option Z;
  nextId : nat
}.

Definition initialContext (retryCount retryDelay0 cacheTime0 : Z) : FetchContext :=
  {| data := JNull; error := None; retries := 0;
     maxRetries := retryCount; retryDelay := retryDelay0;
     cache := None; cacheTime := cacheTime0 |}.

(** The machine a call [createDataFetchMachine(fetchFn, {retryCount,
    retryDelay, cacheTime})] builds, as the snapshot its actor starts in. *)
Definition createDataFetchMachine (retryCount retryDelay0 cacheTime0 : Z) : Snapshot :=
  {| value := Idle;
     context := initialContext retryCount retryDelay0 cacheTime0;
     child := None; timer := None; nextId := 0%nat |}.

(** [options = {}]: [retryCount = 0, retryDelay = 1000, cacheTime = 0]. *)
Definition defaultMachine : Snapshot := createDataFetchMachine 0 1000 0.

(** Entering a state without invoke or delay: the child of the state left is
    stopped, its timer cancelled. *)
Definition settle (v : StateValue) (c : FetchContext) (s : Snapshot) : Snapshot :=
  {| value := v; context := c; child := None; timer := None; nextId := nextId s |}.

(** Entering [loading]: [invoke: { src: 'fetchData' }] starts an actor. *)
Definition enterLoading (c : FetchContext) (s : Snapshot) : Snapshot :=
  {| value := Loading; context := c; child := Some (nextId s); timer := None;
     nextId := S (nextId s) |}.

(** Entering [retrying]: [after: { delayedRetry: ... }] schedules the
    delayed event, the delay read from the context on entry. *)
Definition enterRetrying (c : FetchContext) (s : Snapshot) : Snapshot :=
  {| value := Retrying; context := c; child := None;
     timer := Some (delayedRetry c); nextId := nextId s |}.

(** The guard of [checkingCache]'s first eventless transition. *)
Definition cacheIsFresh (now : Z) (c : FetchContext) : bool :=
  match cache c with
  | None => false
  | Some entry =>
      let age := now - timestamp entry in
      age <? cacheTime c
  end.

(** [checkingCache.always], taken in the macrostep that entered the state. *)
Definition checkingCache (now : Z) (c : FetchContext) (s : Snapshot) : Snapshot :=
  if cacheIsFresh now c
  then settle Cached (setCachedData c) s
  else enterLoading c s.

Definition isChild (s : Snapshot) (actor : nat) : bool :=
  match child s with
  | Some a => Nat.eqb a actor
  | None => false
  end.

(** One macrostep.  An event no transition of the current state handles
    leaves the snapshot as it is. *)
Definition step (now : Z) (s : Snapshot) (ev : FetchEvent) : Snapshot :=
  let c := context s in
  match value s, ev with
  | Idle, FETCH =>
      if cacheTime c >? 0 then checkingCache now c s else enterLoading c s
  | Idle, RESET =>
      {| value := Idle; context := resetContext c; child := child s;
         timer := timer s; nextId := nextId s |}
  | Cached, FETCH => enterLoading (clearCache c) s
  | Cached, RESET => settle Idle (resetContext c) s
  | Loading, DoneFetchData actor _ =>
      if isChild s actor
      then settle Success (resetRetries (cacheData now (setData c ev))) s
      else s
  | Loading, ErrorFetchData actor _ =>
      if isChild s actor
      then if retries c <? maxRetries c
           then enterRetrying (incrementRetries c) s
           else settle Error (setError c ev) s
      else s
  | Loading, CANCEL => settle Idle c s
  | Retrying, AfterDelayedRetry => enterLoading c s
  | Retrying, CANCEL => settle Idle c s
  | Retrying, RESET => settle Idle (resetContext c) s
  | Success, FETCH => enterLoading c s
  | Success, RESET => settle Idle (resetContext c) s
  | Error, RETRY => enterLoading (resetRetries c) s
  | Error, FETCH => enterLoading (resetRetries c) s
  | Error, RESET => settle Idle (resetContext c) s
  | _, _ => s
  end.

(** A run: the events the actor receives, each with the clock reading of
    its macrostep. *)
Fixpoint run (s : Snapshot) (evs : list (Z * FetchEvent)) : Snapshot :=
  match evs with
  | [] => s
  | (now, ev) :: rest => run (step now s ev) rest
  end.

(** The state values a subscriber observes, one per event. *)
Fixpoint trace (s : Snapshot) (evs : list (Z * FetchEvent)) : list StateValue :=
  match evs with
  | [] => []
  | (now, ev) :: rest =>
      let s' := step now s ev in
      value s' :: trace s' rest
  end.

(** The delays of the retries scheduled along a run: one for every
    transition from [loading] into [retrying]. *)
Fixpoint delays (s : Snapshot) (evs : list (Z * FetchEvent)) : list Z :=
  match evs with
  | [] => []
  | (now, ev) :: rest =>
      let s' := step now s ev in
      match value s, value s', timer s' with
      | Loading, Retrying, Some d => d :: delays s' rest
      | _, _, _ => delays s' rest
      end
  end.

(** The Fetch Operation is invoked once per actor started. *)
Definition invocations (s s' : Snapshot) : nat := (nextId s' - nextId s)%nat.

(** [j] failed attempts, each followed by its retry delay elapsing, then
    the event [final] for the actor of attempt [j + 1].  [a] is the running
    actor, [n] the session number of the next one. *)
Fixpoint failThen (e : option JsError) (final : nat -> FetchEvent) (j a n : nat)
  : list FetchEvent :=
  match j with
  | O => [final a]
  | S j' => ErrorFetchData a e :: AfterDelayedRetry :: failThen e final j' n (S n)
  end.

(** [c] with its [retries] field set to [r]; the other fields as in [c]. *)
Definition withRetries (r : Z) (c : FetchContext) : FetchContext :=
  {| data := data c; error := error c;
     retries := r; maxRetries := maxRetries c;
     retryDelay := retryDelay c; cache := cache c; cacheTime := cacheTime c |}.

(** The resolution of actor [a] can no longer be delivered to [s]: [a] was
    started before and is not the running child. *)
Definition stopped (a : nat) (s : Snapshot) : Prop :=
  (a < nextId s)%nat /\ isChild s a = false.

(** *** The machine left to itself *)

(** How one invocation of the Fetch Operation settles. *)
Inductive Outcome : Type :=
| Resolves (output : JsVal)
| Rejects (reason : option JsError).

(** The event the interpreter raises when actor [a] settles. *)
Definition settledEvent (a : nat) (o : Outcome) : FetchEvent :=
  match o with
  | Resolves output => DoneFetchData a output
  | Rejects reason => ErrorFetchData a reason
  end.

(** The machine run by the interpreter alone, no event being sent to it.
    In [loading] the running actor settles: [outcomes] gives, for the
    invocations to come, the time each takes and how it settles.  In
    [retrying] the delayed transition fires once its delay has elapsed,
    provided one was scheduled.  In every other state nothing is pending
    and the run is over.  The result is the list of states passed through
    and the snapshot the run stops in; [fuel] bounds the number of
    macrosteps. *)
Fixpoint drive (fuel : nat) (now : Z) (s : Snapshot) (outcomes : list (Z * Outcome))
  : list StateValue * Snapshot :=
  match fuel with
  | O => ([], s)
  | S fuel' =>
      match value s with
      | Loading =>
          match child s, outcomes with
          | Some a, (latency, o) :: rest =>
              let s' := step (now + latency) s (settledEvent a o) in
              let r := drive fuel' (now + latency) s' rest in
              (value s' :: fst r, snd r)
          | _, _ => ([], s)
          end
      | Retrying =>
          match timer s with
          | Some d =>
              let s' := step (now + d) s AfterDelayedRetry in
              let r := drive fuel' (now + d) s' outcomes in
              (value s' :: fst r, snd r)
          | None => ([], s)
          end
      | _ => ([], s)
      end
  end.

(** Invocations that are all rejected: the time each takes and its reason. *)
Definition rejections (rs : list (Z * option JsError)) : list (Z * Outcome) :=
  map (fun p => (fst p, Rejects (snd p))) rs.

(** Snapshots a machine built with the given options can be in. *)
Definition reachable (retryCount retryDelay0 cacheTime0 : Z) (s : Snapshot) : Prop :=
  exists evs, run (createDataFetchMachine retryCount retryDelay0 cacheTime0) evs = s.

(** *** Invariants of reachable snapshots *)

(** No action assigns the three configuration fields. *)
Definition configOf (rc rd ct : Z) (s : Snapshot) : Prop :=
  maxRetries (context s) = rc /\
  retryDelay (context s) = rd /\
  cacheTime (context s) = ct.

(** [retries] stays between 0 and [maxRetries]. *)
Definition retriesInRange (s : Snapshot) : Prop :=
  0 <= retries (context s) <= maxRetries (context s).

(** [cacheData] stores truthy values only. *)
Definition cacheTruthy (s : Snapshot) : Prop :=
  forall entry, cache (context s) = Some entry -> truthy (cdata entry) = true.

(** The running child was started before: its number is below [nextId]. *)
Definition childStarted (s : Snapshot) : Prop :=
  forall a, child s = Some a -> (a < nextId s)%nat.

(** The delay of the [i]-th retry that follows a [loading] state with
    context [c]. *)
Definition retryDelayAt (c : FetchContext) (i : nat) : Z :=
  retryDelay c * (retries c + Z.of_nat i + 1).

(** Selectors *)
Definition isLoading (s : Snapshot) : bool :=
  match value s with
  | Loading | Retrying => true
  | _ => false
  end.

Definition hasData (s : Snapshot) : bool :=
  match data (context s) with
  | JNull => false
  | _ => true
  end.

End DataFetch.

(** ** The paginated machine *)

Module PaginatedFetch.

Record PaginatedContext : Type := mkPaginatedContext {
  items : list JsVal;
  total : Z;
  page : Z;
  limit : Z;
  loading : bool;
  error : option JsError;
  hasMore : bool
}.

(** What [fetchFn(page, limit)] resolves to: [{ items, total }]. *)
Record PageResult : Type := mkPageResult {
  out_items : list JsVal;
  out_total : Z
}.

(** The declared events, and the done and error events of the invoked
    [fetchPage] actor; the error event carries the reason of the rejection,
    [None] for [null]. *)
Inductive PaginatedEvent : Type :=
| LOAD_PAGE (p : Z)
| LOAD_MORE
| SUCCESS (d : PageResult)
| FAILURE (e : JsError)
| RESET
| DoneFetchPage (actor : nat) (output : PageResult)
| ErrorFetchPage (actor : nat) (reason : option JsError).

Inductive StateValue : Type :=
| Idle
| Loading
| Error.

(** [items.length] *)
Definition len (l : list JsVal) : Z := Z.of_nat (List.length l).

(** *** Actions *)

Definition setPage (c : PaginatedContext) (ev : PaginatedEvent) : PaginatedContext :=
  {| items := items c; total := total c;
     page := match ev with
             | LOAD_PAGE p => p
             | _ => 1
             end;
     limit := limit c; loading := loading c; error := error c;
     hasMore := hasMore c |}.

Definition incrementPage (c : PaginatedContext) : PaginatedContext :=
  {| items := items c; total := total c; page := page c + 1;
     limit := limit c; loading := loading c; error := error c;
     hasMore := hasMore c |}.

Definition setLoading (c : PaginatedContext) : PaginatedContext :=
  {| items := items c; total := total c; page := page c;
     limit := limit c; loading := true; error := error c;
     hasMore := hasMore c |}.

Definition clearLoading (c : PaginatedContext) : PaginatedContext :=
  {| items := items c; total := total c; page := page c;
     limit := limit c; loading := false; error := error c;
     hasMore := hasMore c |}.

Definition appendItems (c : PaginatedContext) (ev : PaginatedEvent) : PaginatedContext :=
  {| items := match ev with
              | DoneFetchPage _ output =>
                  let newItems := out_items output in
                  if page c =? 1 then newItems else items c ++ newItems
              | _ => items c
              end;
     total := total c; page := page c;
     limit := limit c; loading := loading c; error := error c;
     hasMore := hasMore c |}.

Definition updatePagination (c : PaginatedContext) (ev : PaginatedEvent) : PaginatedContext :=
  {| items := items c;
     total := match ev with
              | DoneFetchPage _ output => out_total output
              | _ => 0
              end;
     page := page c; limit := limit c; loading := loading c; error := error c;
     hasMore := match ev with
                | DoneFetchPage _ output =>
                    len (items c) + len (out_items output) <? out_total output
                | _ => false
                end |}.

Definition setErrorState (c : PaginatedContext) (ev : PaginatedEvent) : PaginatedContext :=
  {| items := items c; total := total c; page := page c;
     limit := limit c; loading := loading c;
     error := match ev with
              | ErrorFetchPage _ reason => reason
              | FAILURE e => Some e
              | _ => Some unknownError
              end;
     hasMore := hasMore c |}.

Definition resetPaginationContext (c : PaginatedContext) : PaginatedContext :=
  {| items := []; total := 0; page := 1; limit := limit c;
     loading := false; error := None; hasMore := true |}.

(** *** Snapshots *)

(** A running [fetchPage] actor and the input it was started with. *)
Record Invocation : Type := mkInvocation {
  actorId : nat;
  in_page : Z;
  in_limit : Z
}.

Record Snapshot : Type := mkSnapshot {
  value : StateValue;
  context : PaginatedContext;
  child : option Invocation;
  nextId : nat
}.

Definition initialContext (limit0 : Z) : PaginatedContext :=
  {| items := []; total := 0; page := 1; limit := limit0;
     loading := false; error := None; hasMore := true |}.

(** The machine a call [createPaginatedFetchMachine(fetchFn, limit)]
    builds, as the snapshot its actor starts in. *)
Definition createPaginatedFetchMachine (limit0 : Z) : Snapshot :=
  {| value := Idle; context := initialContext limit0; child := None;
     nextId := 0%nat |}.

(** [limit = 20] *)
Definition defaultMachine : Snapshot := createPaginatedFetchMachine 20.

Definition settle (v : StateValue) (c : PaginatedContext) (s : Snapshot) : Snapshot :=
  {| value := v; context := c; child := None; nextId := nextId s |}.

(** Entering [loading], with the context [c] the transition's actions
    produced: [entry: 'setLoading'] runs, then the actor is started with
    [input: ({ context }) => ({ page: context.page, limit: context.limit })]. *)
Definition enterLoading (c : PaginatedContext) (s : Snapshot) : Snapshot :=
  let c' := setLoading c in
  {| value := Loading;
     context := c';
     child := Some {| actorId := nextId s; in_page := page c'; in_limit := limit c' |};
     nextId := S (nextId s) |}.

Definition isChild (s : Snapshot) (actor : nat) : bool :=
  match child s with
  | Some inv => Nat.eqb (actorId inv) actor
  | None => false
  end.

Definition step (s : Snapshot) (ev : PaginatedEvent) : Snapshot :=
  let c := context s in
  match value s, ev with
  | Idle, LOAD_PAGE _ => enterLoading (setPage c ev) s
  | Idle, LOAD_MORE =>
      if hasMore c && negb (loading c)
      then enterLoading (incrementPage c) s
      else s
  | Idle, RESET =>
      {| value := Idle; context := resetPaginationContext c; child := child s;
         nextId := nextId s |}
  | Loading, DoneFetchPage actor _ =>
      if isChild s actor
      then settle Idle (clearLoading (updatePagination (appendItems c ev) ev)) s
      else s
  | Loading, ErrorFetchPage actor _ =>
      if isChild s actor
      then settle Error (clearLoading (setErrorState c ev)) s
      else s
  | Error, LOAD_PAGE _ => enterLoading (setPage c ev) s
  | Error, LOAD_MORE =>
      if hasMore c then enterLoading c s else s
  | Error, RESET => settle Idle (resetPaginationContext c) s
  | _, _ => s
  end.

Fixpoint run (s : Snapshot) (evs : list PaginatedEvent) : Snapshot :=
  match evs with
  | [] => s
  | ev :: rest => run (step s ev) rest
  end.

Definition reachable (limit0 : Z) (s : Snapshot) : Prop :=
  exists evs, run (createPaginatedFetchMachine limit0) evs = s.

(** *** Invariants of reachable snapshots *)

(** The [loading] flag of a snapshot in state [v]. *)
Definition flagOf (v : StateValue) : bool :=
  match v with
  | Loading => true
  | Idle | Error => false
  end.

(** Only [loading] has a running actor, started for the page and limit of
    the context. *)
Definition inputOfContext (s : Snapshot) : Prop :=
  match value s with
  | Loading =>
      exists inv, child s = Some inv /\
        in_page inv = page (context s) /\ in_limit inv = limit (context s)
  | Idle | Error => child s = None
  end.

(** A page of [n] elements. *)
Definition pageOf (n : nat) (total0 : Z) : PageResult :=
  {| out_items := repeat (JObj 0) n; out_total := total0 |}.

End PaginatedFetch.

(** ** The rest of the machine file, and the hooks that drive the machines *)

Module DataFetchMore.

(** The remaining selectors: [hasError], [getData], [getError]. *)
Definition hasError (s : DataFetch.Snapshot) : bool :=
  match DataFetch.error (DataFetch.context s) with
  | Some _ => true
  | None => false
  end.

Definition getData (s : DataFetch.Snapshot) : JsVal :=
  DataFetch.data (DataFetch.context s).

Definition getError (s : DataFetch.Snapshot) : option JsError :=
  DataFetch.error (DataFetch.context s).

(** The two declared events no state has a transition for. *)
Definition unhandled (ev : DataFetch.FetchEvent) : bool :=
  match ev with
  | DataFetch.SUCCESS _ | DataFetch.FAILURE _ => true
  | _ => false
  end.

(** A cache entry holds a truthy value, and that value is the current
    [data]. *)
Definition cacheMirrorsData (s : DataFetch.Snapshot) : Prop :=
  forall entry,
    DataFetch.cache (DataFetch.context s) = Some entry ->
    truthy (DataFetch.cdata entry) = true /\
    DataFetch.data (DataFetch.context s) = DataFetch.cdata entry.

(** What the context looks like in the states a fetch settles in;
    [checkingCache] is left in the macrostep that entered it.  In [error]
    the [error] field is the reason of the rejection as it came, which may
    be [null]. *)
Definition settledStatus (s : DataFetch.Snapshot) : Prop :=
  match DataFetch.value s with
  | DataFetch.Success =>
      DataFetch.error (DataFetch.context s) = None /\
      DataFetch.retries (DataFetch.context s) = 0
  | DataFetch.Error =>
      DataFetch.maxRetries (DataFetch.context s)
        <= DataFetch.retries (DataFetch.context s)
  | DataFetch.Cached =>
      DataFetch.error (DataFetch.context s) = None /\
      exists entry,
        DataFetch.cache (DataFetch.context s) = Some entry /\
        DataFetch.data (DataFetch.context s) = DataFetch.cdata entry
  | DataFetch.CheckingCache => False
  | _ => True
  end.

(** What is pending in each state: an actor in [loading], the delayed
    transition in [retrying], nothing elsewhere. *)
Definition pendingWork (s : DataFetch.Snapshot) : Prop :=
  0 <= DataFetch.retries (DataFetch.context s) /\
  match DataFetch.value s with
  | DataFetch.Loading =>
      (exists a, DataFetch.child s = Some a) /\ DataFetch.timer s = None
  | DataFetch.Retrying =>
      DataFetch.child s = None /\
      DataFetch.timer s = Some (DataFetch.delayedRetry (DataFetch.context s)) /\
      1 <= DataFetch.retries (DataFetch.context s)
        <= DataFetch.maxRetries (DataFetch.context s)
  | _ => DataFetch.child s = None /\ DataFetch.timer s = None
  end.

End DataFetchMore.

(** [useDataFetch]: the events the hook sends, and what it returns. *)
Module UseDataFetch.

Record FetchState : Type := mkFetchState {
  data : JsVal;
  loading : bool;
  error : option JsError
}.

(** What reaches the machine of a mounted hook: the effect that runs on
    mount and whenever [deps] change, the callbacks [refetch] and [reset],
    and the events the interpreter raises. *)
Inductive Input : Type :=
| DepsChanged
| Refetch
| Reset
| Resolved (actor : nat) (output : JsVal)
| Rejected (actor : nat) (reason : option JsError)
| DelayElapsed.

Definition eventOf (autoFetch : bool) (i : Input) : option DataFetch.FetchEvent :=
  match i with
  | DepsChanged => if autoFetch then Some DataFetch.FETCH else None
  | Refetch => Some DataFetch.FETCH
  | Reset => Some DataFetch.RESET
  | Resolved a v => Some (DataFetch.DoneFetchData a v)
  | Rejected a e => Some (DataFetch.ErrorFetchData a e)
  | DelayElapsed => Some DataFetch.AfterDelayedRetry
  end.

Definition deliver (autoFetch : bool) (now : Z) (s : DataFetch.Snapshot) (i : Input)
  : DataFetch.Snapshot :=
  match eventOf autoFetch i with
  | Some ev => DataFetch.step now s ev
  | None => s
  end.

Fixpoint hookRun (autoFetch : bool) (s : DataFetch.Snapshot) (ins : list (Z * Input))
  : DataFetch.Snapshot :=
  match ins with
  | [] => s
  | (now, i) :: rest => hookRun autoFetch (deliver autoFetch now s i) rest
  end.

(** The [data], [loading] and [error] the hook returns for a snapshot. *)
Definition useDataFetch (s : DataFetch.Snapshot) : FetchState :=
  {| data := DataFetchMore.getData s;
     loading := DataFetch.isLoading s;
     error := DataFetchMore.getError s |}.

(** Two snapshots of machines that differ in [cacheTime] only, as far as a
    hook-driven run can tell them apart. *)
Definition sameButCacheTime (s s' : DataFetch.Snapshot) : Prop :=
  DataFetch.value s = DataFetch.value s' /\
  DataFetch.data (DataFetch.context s) = DataFetch.data (DataFetch.context s') /\
  DataFetch.error (DataFetch.context s) = DataFetch.error (DataFetch.context s') /\
  DataFetch.retries (DataFetch.context s) = DataFetch.retries (DataFetch.context s') /\
  DataFetch.maxRetries (DataFetch.context s) = DataFetch.maxRetries (DataFetch.context s') /\
  DataFetch.retryDelay (DataFetch.context s) = DataFetch.retryDelay (DataFetch.context s') /\
  DataFetch.child s = DataFetch.child s' /\
  DataFetch.timer s = DataFetch.timer s' /\
  DataFetch.nextId s = DataFetch.nextId s' /\
  DataFetch.value s <> DataFetch.Cached /\
  (DataFetch.value s = DataFetch.Idle ->
   DataFetch.cache (DataFetch.context s) = None /\
   DataFetch.cache (DataFetch.context s') = None).

(** In the states a hook-driven machine rests in before a fetch starts
    anew, no retry is counted. *)
Definition freshWhenSettled (s : DataFetch.Snapshot) : Prop :=
  match DataFetch.value s with
  | DataFetch.Idle | DataFetch.Success =>
      DataFetch.retries (DataFetch.context s) = 0
  | _ => True
  end.

End UseDataFetch.

Module PaginatedMore.

Definition unhandled (ev : PaginatedFetch.PaginatedEvent) : bool :=
  match ev with
  | PaginatedFetch.SUCCESS _ | PaginatedFetch.FAILURE _ => true
  | _ => false
  end.

(** [c] with its [error] field set to [e]. *)
Definition withError (e : option JsError) (c : PaginatedFetch.PaginatedContext)
  : PaginatedFetch.PaginatedContext :=
  {| PaginatedFetch.items := PaginatedFetch.items c;
     PaginatedFetch.total := PaginatedFetch.total c;
     PaginatedFetch.page := PaginatedFetch.page c;
     PaginatedFetch.limit := PaginatedFetch.limit c;
     PaginatedFetch.loading := PaginatedFetch.loading c;
     PaginatedFetch.error := e;
     PaginatedFetch.hasMore := PaginatedFetch.hasMore c |}.

End PaginatedMore.

(** [usePaginatedFetch]: the events the hook sends, and what it returns. *)
Module UsePaginatedFetch.


(** A mounted hook: the snapshot of its machine, and the page the
    callbacks of the last render closed over.  [refetch] is a [useCallback]
    with dependency [state.context.page]: until the component renders
    again it sends the page it was built with. *)
Record Hook : Type := mkHook {
  snapshot : PaginatedFetch.Snapshot;
  renderedPage : Z
}.

Inductive Input : Type :=
| LoadMore
| Refetch
| Reset
| Resolved (actor : nat) (output : PaginatedFetch.PageResult)
| Rejected (actor : nat) (reason : option JsError)
| Render.

(** The event a callback or the interpreter sends; a render sends none. *)
Definition eventOf (h : Hook) (i : Input) : option PaginatedFetch.PaginatedEvent :=
  match i with
  | LoadMore => Some PaginatedFetch.LOAD_MORE
  | Refetch => Some (PaginatedFetch.LOAD_PAGE (renderedPage h))
  | Reset => Some PaginatedFetch.RESET
  | Resolved a out => Some (PaginatedFetch.DoneFetchPage a out)
  | Rejected a reason => Some (PaginatedFetch.ErrorFetchPage a reason)
  | Render => None
  end.

(** An event goes to the machine and leaves the callbacks as they are; a
    render rebuilds [refetch] with the page of the current snapshot. *)
Definition deliver (h : Hook) (i : Input) : Hook :=
  match eventOf h i with
  | Some ev =>
      {| snapshot := PaginatedFetch.step (snapshot h) ev;
         renderedPage := renderedPage h |}
  | None =>
      {| snapshot := snapshot h;
         renderedPage := PaginatedFetch.page (PaginatedFetch.context (snapshot h)) |}
  end.


Fixpoint hookRun (h : Hook) (ins : list Input) : Hook :=
  match ins with
  | [] => h
  | i :: rest => hookRun (deliver h i) rest
  end.



End UsePaginatedFetch.

(** * Properties of the single-fetch machine *)

Module DataFetchFacts.
Import DataFetch.

Ltac case_ifs :=
  repeat match goal with
         | |- context [if ?b then _ else _] => destruct b eqn:?; cbn
         end.

(** Case analysis on the transition [step] takes. *)
Ltac step_cases s ev :=
  unfold step, checkingCache, settle, enterLoading, enterRetrying;
  destruct (value s) eqn:?; destruct ev; cbn;
  case_ifs; cbn.

Lemma run_app (s : Snapshot) (evs evs' : list (Z * FetchEvent)) :
  run s (evs ++ evs') = run (run s evs) evs'.
Proof.
  revert s; induction evs as [|[now ev] evs IH]; intros s; cbn; auto.
Qed.

(** A property every macrostep preserves holds along every run. *)
Lemma run_invariant (P : Snapshot -> Prop) :
  (forall now s ev, P s -> P (step now s ev)) ->
  forall evs s, P s -> P (run s evs).
Proof.
  intros Hstep evs; induction evs as [|[now ev] evs IH]; intros s Hs; cbn; auto.
Qed.

Lemma reachable_invariant (rc rd ct : Z) (P : Snapshot -> Prop) :
  P (createDataFetchMachine rc rd ct) ->
  (forall now s ev, P s -> P (step now s ev)) ->
  forall s, reachable rc rd ct s -> P s.
Proof.
  intros H0 Hstep s [evs <-]. now apply run_invariant.
Qed.

Lemma reachable_step (rc rd ct : Z) (s : Snapshot) (now : Z) (ev : FetchEvent) :
  reachable rc rd ct s -> reachable rc rd ct (step now s ev).
Proof.
  intros [evs <-]. exists (evs ++ [(now, ev)]). now rewrite run_app.
Qed.

Lemma step_config (rc rd ct : Z) (now : Z) (s : Snapshot) (ev : FetchEvent) :
  configOf rc rd ct s -> configOf rc rd ct (step now s ev).
Proof.
  unfold configOf; intros H. step_cases s ev; auto.
Qed.

Lemma reachable_config (rc rd ct : Z) (s : Snapshot) :
  reachable rc rd ct s -> configOf rc rd ct s.
Proof.
  apply reachable_invariant.
  - now cbv.
  - intros; now apply step_config.
Qed.

Lemma step_retriesInRange (now : Z) (s : Snapshot) (ev : FetchEvent) :
  retriesInRange s -> retriesInRange (step now s ev).
Proof.
  unfold retriesInRange; intros H. step_cases s ev; lia.
Qed.

Lemma reachable_retriesInRange (rc rd ct : Z) (s : Snapshot) :
  0 <= rc -> reachable rc rd ct s -> retriesInRange s.
Proof.
  intros Hrc. apply reachable_invariant.
  - unfold retriesInRange; cbn; lia.
  - intros; now apply step_retriesInRange.
Qed.

Lemma step_cacheTruthy (now : Z) (s : Snapshot) (ev : FetchEvent) :
  cacheTruthy s -> cacheTruthy (step now s ev).
Proof.
  unfold cacheTruthy; intros H. step_cases s ev; auto.
  all: intros entry He; try discriminate He.
  all: injection He as <-; cbn.
  all: match goal with
       | Hb : (_ && _)%bool = true |- _ => now apply andb_prop in Hb
       end.
Qed.

Lemma reachable_cacheTruthy (rc rd ct : Z) (s : Snapshot) :
  reachable rc rd ct s -> cacheTruthy s.
Proof.
  apply reachable_invariant.
  - intros entry; discriminate.
  - intros; now apply step_cacheTruthy.
Qed.

Lemma step_childStarted (now : Z) (s : Snapshot) (ev : FetchEvent) :
  childStarted s -> childStarted (step now s ev).
Proof.
  unfold childStarted; intros H. step_cases s ev; auto.
  all: intros a Ha; try discriminate Ha.
  all: try (injection Ha as <-; lia).
  all: specialize (H a Ha); lia.
Qed.

Lemma reachable_childStarted (rc rd ct : Z) (s : Snapshot) :
  reachable rc rd ct s -> childStarted s.
Proof.
  apply reachable_invariant.
  - intros a; discriminate.
  - intros; now apply step_childStarted.
Qed.

Lemma isChild_running (s : Snapshot) (a : nat) :
  child s = Some a -> isChild s a = true.
Proof.
  unfold isChild; intros ->. apply Nat.eqb_refl.
Qed.

(** What the [onDone] transition of [loading] produces. *)
Lemma step_done (now : Z) (s : Snapshot) (a : nat) (v : JsVal) :
  value s = Loading -> child s = Some a ->
  step now s (DoneFetchData a v) =
  settle Success
    (resetRetries (cacheData now (setData (context s) (DoneFetchData a v)))) s.
Proof.
  intros Hv Ha. unfold step. now rewrite Hv, (isChild_running s a Ha).
Qed.

(** What the [onError] transitions of [loading] produce. *)
Lemma step_error (now : Z) (s : Snapshot) (a : nat) (e : option JsError) :
  value s = Loading -> child s = Some a ->
  step now s (ErrorFetchData a e) =
  if retries (context s) <? maxRetries (context s)
  then enterRetrying (incrementRetries (context s)) s
  else settle Error (setError (context s) (ErrorFetchData a e)) s.
Proof.
  intros Hv Ha. unfold step. now rewrite Hv, (isChild_running s a Ha).
Qed.

(** ** Cache writes *)

(** C9.  With caching enabled, a successful fetch whose value is falsy sets
    the cache entry to null, whatever entry was stored before; an entry
    (the value, stamped with the current time) is stored only when the
    value is truthy. *)
Theorem falsy_result_erases_cache :
  forall (now : Z) (s : Snapshot) (a : nat) (v : JsVal),
    value s = Loading -> child s = Some a -> cacheTime (context s) > 0 ->
    let s' := step now s (DoneFetchData a v) in
    value s' = Success /\
    data (context s') = v /\
    (truthy v = false -> cache (context s') = None) /\
    (truthy v = true ->
     cache (context s') = Some {| cdata := v; timestamp := now |}) /\
    (cache (context s') <> None -> truthy v = true).
Proof.
  intros now s a v Hv Ha Hct s'. subst s'.
  rewrite (step_done now s a v Hv Ha); cbn.
  assert (Hgt : (cacheTime (context s) >? 0) = true) by (apply Z.gtb_lt; lia).
  rewrite Hgt; cbn.
  repeat split.
  - now intros ->.
  - now intros ->.
  - destruct (truthy v); [reflexivity | intros H; now elim H].
Qed.

(** A stored entry ["A"] is erased by a later fetch that resolves to [0]. *)
Lemma falsy_result_erases_cache_witness :
  let s := run (createDataFetchMachine 0 1000 1000)
             [(0, FETCH); (0, DoneFetchData 0 (JStr "A")); (1, FETCH)] in
  cache (context s) = Some {| cdata := JStr "A"; timestamp := 0 |} /\
  cache (context (step 2 s (DoneFetchData 1 (JNum 0)))) = None.
Proof.
  intros s. split; [reflexivity |].
  apply (falsy_result_erases_cache 2 s 1%nat (JNum 0)); reflexivity.
Defined.

(** ** Cache reads *)

(** C1, as the machine has it.  The cache is consulted only by a [FETCH]
    received in [idle].  There, with caching enabled and an entry stored at
    [timestamp entry]: a [FETCH] at [now < timestamp entry + cacheTime]
    reaches [cached] with the entry's value as [data], no error, and no
    actor started; a [FETCH] at [now >= timestamp entry + cacheTime] reaches
    [loading] and starts one actor.  A [FETCH] received in [success] or
    [error] reaches [loading] and starts one actor whatever the age of the
    entry. *)
Theorem cache_window_from_idle :
  forall (rc rd ct : Z) (s : Snapshot) (now : Z) (entry : CacheEntry),
    reachable rc rd ct s ->
    cacheTime (context s) > 0 ->
    cache (context s) = Some entry ->
    let s' := step now s FETCH in
    (value s = Idle -> now < timestamp entry + cacheTime (context s) ->
     value s' = Cached /\
     data (context s') = cdata entry /\
     error (context s') = None /\
     child s' = None /\
     invocations s s' = 0%nat) /\
    (value s = Idle -> now >= timestamp entry + cacheTime (context s) ->
     value s' = Loading /\
     child s' = Some (nextId s) /\
     invocations s s' = 1%nat) /\
    (value s = Success \/ value s = Error ->
     value s' = Loading /\
     child s' = Some (nextId s) /\
     invocations s s' = 1%nat).
Proof.
  intros rc rd ct s now entry Hreach Hct Hcache s'. subst s'.
  pose proof (reachable_cacheTruthy _ _ _ _ Hreach entry Hcache) as Htruthy.
  assert (Hgt : (cacheTime (context s) >? 0) = true) by (apply Z.gtb_lt; lia).
  unfold invocations.
  split; [| split].
  - intros Hv Hnow. unfold step, checkingCache, cacheIsFresh.
    rewrite Hv, Hgt, Hcache.
    assert (Hage : (now - timestamp entry <? cacheTime (context s)) = true)
      by (apply Z.ltb_lt; lia).
    cbv zeta; rewrite Hage; cbn. rewrite Hcache. unfold orNull.
    rewrite Htruthy. repeat split. lia.
  - intros Hv Hnow. unfold step, checkingCache, cacheIsFresh.
    rewrite Hv, Hgt, Hcache.
    assert (Hage : (now - timestamp entry <? cacheTime (context s)) = false)
      by (apply Z.ltb_ge; lia).
    cbv zeta; rewrite Hage; cbn -[Nat.sub]. repeat split. lia.
  - intros [Hv | Hv]; unfold step; rewrite Hv; cbn -[Nat.sub]; repeat split; lia.
Qed.

(** An entry left in [idle] by a cancelled refetch is served at [t = 500]. *)
Lemma cache_window_from_idle_witness :
  let s := run (createDataFetchMachine 0 1000 1000)
             [(0, FETCH); (0, DoneFetchData 0 (JStr "A")); (100, FETCH);
              (200, CANCEL)] in
  value s = Idle /\
  value (step 500 s FETCH) = Cached /\
  data (context (step 500 s FETCH)) = JStr "A".
Proof.
  intros s.
  assert (Hreach : reachable 0 1000 1000 s) by (eexists; reflexivity).
  destruct (cache_window_from_idle 0 1000 1000 s 500
              {| cdata := JStr "A"; timestamp := 0 |} Hreach
              eq_refl eq_refl) as [Hfresh _].
  destruct (Hfresh eq_refl eq_refl) as (Hv & Hd & _).
  split; [reflexivity | split; assumption].
Defined.

(** C1 as stated fails for a [FETCH] received in [success]: with
    [cacheTime = 1000] and ["A"] cached at [t = 0], the [FETCH] at [t = 500]
    does not reach [cached]; it reaches [loading] and starts a new actor. *)
Lemma fetch_in_success_bypasses_cache :
  let s := run (createDataFetchMachine 0 1000 1000)
             [(0, FETCH); (0, DoneFetchData 0 (JStr "A"))] in
  let s' := step 500 s FETCH in
  value s = Success /\
  cache (context s) = Some {| cdata := JStr "A"; timestamp := 0 |} /\
  500 < 0 + cacheTime (context s) /\
  value s' <> Cached /\
  value s' = Loading /\
  invocations s s' = 1%nat.
Proof.
  cbn. repeat split; try reflexivity. discriminate.
Qed.

(** ** Retries *)

Lemma withRetries_same (c : FetchContext) : withRetries (retries c) c = c.
Proof. now destruct c. Qed.

Lemma map_snd_cons {A B : Type} (l : list (A * B)) (b : B) (bs : list B) :
  map snd l = b :: bs -> exists a l', l = (a, b) :: l' /\ map snd l' = bs.
Proof.
  destruct l as [|[a b'] l']; cbn; [discriminate |].
  intros [= -> <-]. now exists a, l'.
Qed.

(** A run of [failThen]: [j] rounds [loading -> retrying -> loading], which
    leave the machine in [loading] with [retries] raised by [j], then the
    final event. *)
Lemma failThen_run (e : option JsError) (final : nat -> FetchEvent) :
  forall (j : nat) (s : Snapshot) (a : nat) (evs : list (Z * FetchEvent)),
    value s = Loading -> child s = Some a ->
    retries (context s) + Z.of_nat j <= maxRetries (context s) ->
    map snd evs = failThen e final j a (nextId s) ->
    exists (now : Z) (s' : Snapshot) (a' : nat),
      value s' = Loading /\ child s' = Some a' /\
      context s' = withRetries (retries (context s) + Z.of_nat j) (context s) /\
      run s evs = step now s' (final a') /\
      trace s evs =
        List.concat (repeat [Retrying; Loading] j) ++ [value (step now s' (final a'))] /\
      delays s evs =
        map (retryDelayAt (context s)) (seq 1 j) ++ delays s' [(now, final a')].
Proof.
  induction j as [|j IH]; intros s a evs Hv Ha Hle Hevs.
  - cbn in Hevs.
    apply map_snd_cons in Hevs as (now & rest & -> & Hrest).
    apply map_eq_nil in Hrest as ->.
    exists now, s, a. rewrite Z.add_0_r, withRetries_same.
    repeat split; auto.
  - cbn [failThen] in Hevs.
    apply map_snd_cons in Hevs as (t1 & rest1 & -> & Hevs).
    apply map_snd_cons in Hevs as (t2 & rest & -> & Hevs).
    assert (Hlt : (retries (context s) <? maxRetries (context s)) = true)
      by (apply Z.ltb_lt; lia).
    pose proof (step_error t1 s a e Hv Ha) as H1. rewrite Hlt in H1.
    set (s2 := enterLoading (incrementRetries (context s)) s).
    assert (H2 : step t2 (enterRetrying (incrementRetries (context s)) s)
                   AfterDelayedRetry = s2) by reflexivity.
    destruct (IH s2 (nextId s) rest) as (now & s' & a' & Hv' & Ha' & Hc' & Hrun & Htr & Hd);
      try reflexivity; auto.
    { cbn. lia. }
    exists now, s', a'. repeat split; auto.
    + rewrite Hc'. cbn. unfold withRetries; cbn. f_equal. lia.
    + cbn [run]. now rewrite H1, H2.
    + cbn [trace]. rewrite H1, H2. cbn [repeat List.concat app]. now rewrite Htr.
    + cbn [delays]. rewrite H1. rewrite Hv.
      cbn [value timer enterRetrying]. rewrite H2.
      cbn [value s2 enterLoading]. rewrite Hd.
      assert (Hhd : delayedRetry (incrementRetries (context s)) =
                    retryDelayAt (context s) 1)
        by (unfold delayedRetry, retryDelayAt; cbn; f_equal; lia).
      assert (Htl : map (retryDelayAt (context s2)) (seq 1 j) =
                    map (retryDelayAt (context s)) (seq 2 j)).
      { rewrite <- (seq_shift j 1), map_map. apply map_ext. intros i.
        unfold retryDelayAt; cbn -[Z.of_nat]. f_equal. lia. }
      rewrite Hhd, Htl. reflexivity.
Qed.

Lemma count_retrying_rounds (k : nat) (final : StateValue) :
  final <> Retrying ->
  count_occ StateValue_eq_dec
    (List.concat (repeat [Retrying; Loading] k) ++ [final]) Retrying = k.
Proof.
  intros Hfinal. induction k as [|k IH]; cbn.
  - destruct (StateValue_eq_dec final Retrying); congruence.
  - now rewrite IH.
Qed.

Lemma drive_loading (fuel : nat) (now : Z) (s : Snapshot) (a : nat)
      (latency : Z) (o : Outcome) (rest : list (Z * Outcome)) :
  value s = Loading -> child s = Some a ->
  drive (S fuel) now s ((latency, o) :: rest) =
  (value (step (now + latency) s (settledEvent a o))
     :: fst (drive fuel (now + latency)
               (step (now + latency) s (settledEvent a o)) rest),
   snd (drive fuel (now + latency)
          (step (now + latency) s (settledEvent a o)) rest)).
Proof.
  intros Hv Ha. cbn [drive]. now rewrite Hv, Ha.
Qed.

Lemma drive_retrying (fuel : nat) (now : Z) (s : Snapshot) (d : Z)
      (outcomes : list (Z * Outcome)) :
  value s = Retrying -> timer s = Some d ->
  drive (S fuel) now s outcomes =
  (value (step (now + d) s AfterDelayedRetry)
     :: fst (drive fuel (now + d) (step (now + d) s AfterDelayedRetry) outcomes),
   snd (drive fuel (now + d) (step (now + d) s AfterDelayedRetry) outcomes)).
Proof.
  intros Hv Ht. cbn [drive]. now rewrite Hv, Ht.
Qed.

(** Nothing is pending in a state other than [loading] and [retrying]. *)
Lemma drive_settled (fuel : nat) (now : Z) (s : Snapshot)
      (outcomes : list (Z * Outcome)) :
  value s <> Loading -> value s <> Retrying ->
  drive fuel now s outcomes = ([], s).
Proof.
  intros Hl Hr. destruct fuel; cbn [drive]; [reflexivity |].
  destruct (value s); congruence.
Qed.

(** The machine driven through rejected invocations it still has retries
    for: one round [loading -> retrying -> loading] per rejection, each
    taking two macrosteps, then whatever the rest of the run is. *)
Lemma drive_rejections :
  forall (rs : list (Z * option JsError)) (s : Snapshot) (a : nat) (now : Z)
         (f : nat) (more : list (Z * Outcome)),
    value s = Loading -> child s = Some a ->
    retries (context s) + Z.of_nat (List.length rs) <= maxRetries (context s) ->
    exists (now' : Z) (s' : Snapshot) (a' : nat),
      value s' = Loading /\ child s' = Some a' /\
      context s' =
        withRetries (retries (context s) + Z.of_nat (List.length rs)) (context s) /\
      drive (2 * List.length rs + f) now s (rejections rs ++ more) =
      (List.concat (repeat [Retrying; Loading] (List.length rs))
         ++ fst (drive f now' s' more),
       snd (drive f now' s' more)).
Proof.
  induction rs as [| [latency reason] rs IH]; intros s a now f more Hv Ha Hle.
  - exists now, s, a. cbn [List.length Z.of_nat].
    rewrite Z.add_0_r, withRetries_same. repeat split; auto.
    cbn. now destruct (drive f now s more).
  - cbn [List.length] in *.
    replace (2 * S (List.length rs) + f)%nat
      with (S (S (2 * List.length rs + f))) by lia.
    cbn [rejections map app fst snd]. fold (rejections rs).
    rewrite (drive_loading _ now s a latency (Rejects reason) _ Hv Ha).
    cbn [settledEvent].
    assert (Hlt : (retries (context s) <? maxRetries (context s)) = true)
      by (apply Z.ltb_lt; lia).
    rewrite (step_error (now + latency) s a reason Hv Ha), Hlt.
    set (s1 := enterRetrying (incrementRetries (context s)) s).
    rewrite (drive_retrying _ (now + latency) s1
               (delayedRetry (incrementRetries (context s))) _ eq_refl eq_refl).
    set (now2 := now + latency + delayedRetry (incrementRetries (context s))).
    assert (H2 : step now2 s1 AfterDelayedRetry =
                 enterLoading (incrementRetries (context s)) s1) by reflexivity.
    rewrite H2.
    set (s2 := enterLoading (incrementRetries (context s)) s1).
    destruct (IH s2 (nextId s1) now2 f more) as (now' & s' & a' & Hv' & Ha' & Hc' & Hd);
      try reflexivity.
    { cbn. lia. }
    exists now', s', a'. repeat split; auto.
    + rewrite Hc'. cbn. unfold withRetries; cbn. f_equal. lia.
    + rewrite Hd. reflexivity.
Qed.

(** C4, as the machine has it.  Take a fetch that enters [loading] with
    [retries = r] and [maxRetries = k = r + j]; [r = 0] on [FETCH] from the
    initial [idle] state and from [success] and on [FETCH] or [RETRY] from
    [error], while [CANCEL] in [retrying] keeps the count for the next
    [FETCH].  Left to itself with an operation that keeps failing, the
    machine makes exactly [j = k - r] automatic retries, each one fired by
    the delay [retrying] scheduled, and the [j + 1]-th failure moves it to
    [error] with that failure recorded.  If instead the operation succeeds
    after [i <= j] failures, the machine reaches [success] after [i] such
    rounds, with [retries] reset to 0 and the value as [data]. *)
Theorem retries_exhaust_then_error :
  forall (j : nat) (s : Snapshot) (a : nat) (now : Z) (fuel : nat)
         (rs : list (Z * option JsError)) (latency : Z)
         (more : list (Z * Outcome)),
    value s = Loading -> child s = Some a ->
    maxRetries (context s) = retries (context s) + Z.of_nat j ->
    (2 * List.length rs + 1 <= fuel)%nat ->
    (List.length rs = j ->
     forall reason : option JsError,
       let result :=
         drive fuel now s (rejections rs ++ (latency, Rejects reason) :: more) in
       fst result = List.concat (repeat [Retrying; Loading] j) ++ [Error] /\
       count_occ StateValue_eq_dec (fst result) Retrying = j /\
       value (snd result) = Error /\
       DataFetch.error (context (snd result)) = reason /\
       retries (context (snd result)) = maxRetries (context s)) /\
    ((List.length rs <= j)%nat ->
     forall v : JsVal,
       let result :=
         drive fuel now s (rejections rs ++ (latency, Resolves v) :: more) in
       fst result =
         List.concat (repeat [Retrying; Loading] (List.length rs)) ++ [Success] /\
       count_occ StateValue_eq_dec (fst result) Retrying = List.length rs /\
       value (snd result) = Success /\
       retries (context (snd result)) = 0 /\
       data (context (snd result)) = v).
Proof.
  intros j s a now fuel rs latency more Hv Ha Hm Hfuel.
  assert (Hf : exists f, fuel = (2 * List.length rs + S f)%nat)
    by (exists (fuel - 2 * List.length rs - 1)%nat; lia).
  destruct Hf as [f ->].
  split.
  - intros Hlen reason result. subst result.
    destruct (drive_rejections rs s a now (S f)
                ((latency, Rejects reason) :: more) Hv Ha)
      as (now' & s' & a' & Hv' & Ha' & Hc' & Hd); [lia |].
    rewrite Hd, Hlen.
    rewrite (drive_loading f now' s' a' latency (Rejects reason) more Hv' Ha').
    cbn [settledEvent].
    assert (Hlast : step (now' + latency) s' (ErrorFetchData a' reason) =
                    settle Error (setError (context s') (ErrorFetchData a' reason)) s').
    { rewrite (step_error _ s' a' reason Hv' Ha'), Hc'; cbn.
      assert (Hge : (retries (context s) + Z.of_nat (List.length rs)
                       <? maxRetries (context s)) = false)
        by (apply Z.ltb_ge; lia).
      now rewrite Hge. }
    rewrite Hlast, drive_settled by (cbn; discriminate).
    cbn [fst snd value context settle setError DataFetch.error retries].
    rewrite Hc'. cbn. repeat split; try lia.
    apply count_retrying_rounds; discriminate.
  - intros Hlen v result. subst result.
    destruct (drive_rejections rs s a now (S f)
                ((latency, Resolves v) :: more) Hv Ha)
      as (now' & s' & a' & Hv' & Ha' & Hc' & Hd); [lia |].
    rewrite Hd.
    rewrite (drive_loading f now' s' a' latency (Resolves v) more Hv' Ha').
    cbn [settledEvent].
    rewrite (step_done _ s' a' v Hv' Ha'), drive_settled by (cbn; discriminate).
    cbn. repeat split.
    apply count_retrying_rounds; discriminate.
Qed.

(** [maxRetries = 2], the operation fails twice and then succeeds. *)
Lemma retries_exhaust_then_error_witness :
  let s := step 0 (createDataFetchMachine 2 100 0) FETCH in
  let result :=
    drive 5 0 s
      (rejections [(10, Some "down"%string); (10, Some "down"%string)]
         ++ [(10, Resolves (JStr "A"))]) in
  fst result = [Retrying; Loading; Retrying; Loading; Success] /\
  retries (context (snd result)) = 0.
Proof.
  intros s result.
  assert (Hfuel : (2 * 2 + 1 <= 5)%nat) by (apply le_n).
  destruct (retries_exhaust_then_error 2 s 0%nat 0 5
              [(10, Some "down"%string); (10, Some "down"%string)] 10 []
              eq_refl eq_refl eq_refl Hfuel) as [_ Hok].
  destruct (Hok (le_n 2) (JStr "A")) as (Htr & _ & _ & Hr & _).
  split; assumption.
Defined.

(** C4 as stated fails for a fetch started after [CANCEL] in [retrying]:
    with [maxRetries = 2], the first retry cancelled and [FETCH] sent
    again, a persistently failing operation is retried once, not twice,
    before [error]. *)
Lemma cancelled_retry_shortens_budget :
  let s := run (createDataFetchMachine 2 100 0)
             [(0, FETCH); (5, ErrorFetchData 0 (Some "down"%string));
              (9, CANCEL); (20, FETCH)] in
  let result :=
    drive 10 20 s
      (rejections [(5, Some "down"%string); (5, Some "down"%string);
                   (5, Some "down"%string); (5, Some "down"%string)]) in
  value s = Loading /\
  maxRetries (context s) = 2 /\
  fst result = [Retrying; Loading; Error] /\
  count_occ StateValue_eq_dec (fst result) Retrying = 1%nat /\
  count_occ StateValue_eq_dec (fst result) Retrying <> 2%nat.
Proof.
  vm_compute. repeat split. discriminate.
Qed.

(** C3, as the machine has it.  [incrementRetries] runs on the transition
    into [retrying], before the delay is read, so in a fetch cycle the
    delay before the [i]-th retry ([1 <= i <= maxRetries]) is
    [retryDelay * (i + 1)]: the base delay times the number of the attempt
    the retry performs, the first attempt of the cycle counted as attempt 1.
    With a base delay that is not negative these delays never decrease. *)
Theorem retry_delay_linear :
  forall (k : nat) (s : Snapshot) (a : nat) (e : option JsError)
         (evs : list (Z * FetchEvent)),
    value s = Loading -> child s = Some a ->
    retries (context s) = 0 -> maxRetries (context s) = Z.of_nat k ->
    map snd evs = failThen e (fun i => ErrorFetchData i e) k a (nextId s) ->
    List.length (delays s evs) = k /\
    (forall i : nat, (1 <= i <= k)%nat ->
       nth_error (delays s evs) (i - 1) =
       Some (retryDelay (context s) * (Z.of_nat i + 1))) /\
    (0 <= retryDelay (context s) ->
     forall (i j : nat) (d d' : Z),
       (i <= j)%nat ->
       nth_error (delays s evs) i = Some d ->
       nth_error (delays s evs) j = Some d' ->
       d <= d').
Proof.
  intros k s a e evs Hv Ha Hr Hm Hevs.
  destruct (failThen_run e (fun i => ErrorFetchData i e) k s a evs Hv Ha) as
    (now & s' & a' & Hv' & Ha' & Hc' & _ & _ & Hd); auto; [lia |].
  assert (Hlast : delays s' [(now, ErrorFetchData a' e)] = []).
  { cbn. rewrite (step_error now s' a' e Hv' Ha'), Hc'; cbn.
    assert (Hge : (retries (context s) + Z.of_nat k <? maxRetries (context s)) = false)
      by (apply Z.ltb_ge; lia).
    rewrite Hge, Hv'. reflexivity. }
  rewrite Hlast, app_nil_r in Hd.
  assert (Hnth : forall i, nth_error (delays s evs) i =
                   if (i <? k)%nat
                   then Some (retryDelay (context s) * (Z.of_nat (1 + i) + 1))
                   else None).
  { intros i. rewrite Hd, nth_error_map, nth_error_seq.
    destruct (i <? k)%nat; cbn -[Z.of_nat]; [| reflexivity].
    unfold retryDelayAt. rewrite Hr. reflexivity. }
  split; [| split].
  - now rewrite Hd, length_map, length_seq.
  - intros i Hi. rewrite Hnth.
    assert (Hlt : (i - 1 <? k)%nat = true) by (apply Nat.ltb_lt; lia).
    rewrite Hlt. do 3 f_equal. lia.
  - intros Hbase i j d d' Hij Hi Hj. rewrite Hnth in Hi, Hj.
    destruct (i <? k)%nat; [| discriminate].
    destruct (j <? k)%nat; [| discriminate].
    injection Hi as <-. injection Hj as <-.
    apply Z.mul_le_mono_nonneg_l; lia.
Qed.

(** [retryDelay = 100], [maxRetries = 2]: the delays are 200 and 300. *)
Lemma retry_delay_linear_witness :
  let s := step 0 (createDataFetchMachine 2 100 0) FETCH in
  let evs := [(10, ErrorFetchData 0 (Some "down"%string)); (210, AfterDelayedRetry);
              (220, ErrorFetchData 1 (Some "down"%string)); (520, AfterDelayedRetry);
              (530, ErrorFetchData 2 (Some "down"%string))] in
  nth_error (delays s evs) (1 - 1) = Some (100 * (Z.of_nat 1 + 1)) /\
  nth_error (delays s evs) (2 - 1) = Some (100 * (Z.of_nat 2 + 1)).
Proof.
  intros s evs.
  destruct (retry_delay_linear 2 s 0%nat (Some "down"%string) evs
              eq_refl eq_refl eq_refl eq_refl eq_refl) as (_ & Hnth & _).
  split; apply Hnth; split; auto.
Defined.

(** C3 as stated fails at the first retry: with [retryDelay = 100] its
    delay is 200, not [100 * 1]. *)
Lemma first_retry_delay_not_base :
  let s := step 0 (createDataFetchMachine 2 100 0) FETCH in
  let s' := step 10 s (ErrorFetchData 0 (Some "down"%string)) in
  value s' = Retrying /\
  retries (context s') = 1 /\
  timer s' = Some 200 /\
  timer s' <> Some (retryDelay (context s) * 1).
Proof.
  cbn. repeat split. discriminate.
Qed.

(** C5, as the machine has it.  With [retryCount >= 0], [retries] is
    between 0 and [maxRetries] in every reachable snapshot.  The failure
    received with [retries = maxRetries] moves the machine to [error] with
    the failure recorded and [retries] left as it is; [retries] is set to 0
    by the [RETRY] or [FETCH] that leaves [error]. *)
Theorem retries_bounded :
  forall (rc rd ct : Z) (s : Snapshot),
    0 <= rc -> reachable rc rd ct s ->
    0 <= retries (context s) <= maxRetries (context s) /\
    (forall (now : Z) (a : nat) (e : option JsError),
        value s = Loading -> child s = Some a ->
        retries (context s) = maxRetries (context s) ->
        let s' := step now s (ErrorFetchData a e) in
        value s' = Error /\
        retries (context s') = maxRetries (context s) /\
        DataFetch.error (context s') = e) /\
    (forall (now : Z) (ev : FetchEvent),
        value s = Error -> ev = RETRY \/ ev = FETCH ->
        let s' := step now s ev in
        value s' = Loading /\ retries (context s') = 0).
Proof.
  intros rc rd ct s Hrc Hreach.
  split; [| split].
  - exact (reachable_retriesInRange rc rd ct s Hrc Hreach).
  - intros now a e Hv Ha Hmax s'. subst s'.
    rewrite (step_error now s a e Hv Ha).
    assert (Hge : (retries (context s) <? maxRetries (context s)) = false)
      by (apply Z.ltb_ge; lia).
    rewrite Hge; cbn. auto.
  - intros now ev Hv [-> | ->] s'; subst s'; unfold step; rewrite Hv; cbn; auto.
Qed.

(** [maxRetries = 1]: the second failure arrives with [retries = 1]. *)
Lemma retries_bounded_witness :
  let s := run (createDataFetchMachine 1 100 0)
             [(0, FETCH); (10, ErrorFetchData 0 (Some "down"%string));
              (210, AfterDelayedRetry)] in
  0 <= retries (context s) <= maxRetries (context s) /\
  value (step 220 s (ErrorFetchData 1 (Some "down"%string))) = Error.
Proof.
  intros s.
  assert (Hreach : reachable 1 100 0 s) by (eexists; reflexivity).
  assert (Hrc : 0 <= 1) by (intros H; discriminate H).
  destruct (retries_bounded 1 100 0 s Hrc Hreach) as (Hrange & Hfail & _).
  split; [exact Hrange |].
  exact (proj1 (Hfail 220 1%nat (Some "down"%string) eq_refl eq_refl eq_refl)).
Defined.

(** C5 as stated fails on the transition into [error]: with
    [maxRetries = 1] the second failure reaches [error] with [retries = 1],
    not 0. *)
Lemma error_keeps_retries :
  let s := run (createDataFetchMachine 1 100 0)
             [(0, FETCH); (10, ErrorFetchData 0 (Some "down"%string));
              (210, AfterDelayedRetry); (220, ErrorFetchData 1 (Some "down"%string))] in
  value s = Error /\
  retries (context s) = 1 /\
  retries (context s) <> 0.
Proof.
  cbn. repeat split. discriminate.
Qed.

(** ** Cancellation *)

Lemma step_stopped (a : nat) (now : Z) (s : Snapshot) (ev : FetchEvent) :
  stopped a s -> stopped a (step now s ev).
Proof.
  unfold stopped, isChild. intros [Hlt Hchild].
  step_cases s ev; auto.
  all: split; [lia |].
  all: apply Nat.eqb_neq; lia.
Qed.

(** A resolution of a stopped actor matches no transition. *)
Lemma stopped_ignored (a : nat) (now : Z) (s : Snapshot) :
  stopped a s ->
  (forall v, step now s (DoneFetchData a v) = s) /\
  (forall e, step now s (ErrorFetchData a e) = s).
Proof.
  intros [_ Hchild].
  split; intros x; unfold step; destruct (value s); auto; now rewrite Hchild.
Qed.

(** C8.  [CANCEL] in [loading] moves the machine to [idle] and leaves the
    context (data, error, retries, cache) as it is; the in-flight actor is
    stopped, and whatever events the machine handles afterwards, the
    resolution of that actor, success or failure, changes neither the
    context nor the state. *)
Theorem cancel_discards_resolution :
  forall (rc rd ct : Z) (s : Snapshot) (a : nat) (now : Z),
    reachable rc rd ct s ->
    value s = Loading -> child s = Some a ->
    let s1 := step now s CANCEL in
    value s1 = Idle /\
    context s1 = context s /\
    child s1 = None /\
    (forall (evs : list (Z * FetchEvent)) (now' : Z),
        let s2 := run s1 evs in
        (forall v, step now' s2 (DoneFetchData a v) = s2) /\
        (forall e, step now' s2 (ErrorFetchData a e) = s2)).
Proof.
  intros rc rd ct s a now Hreach Hv Ha s1.
  assert (Hs1 : s1 = settle Idle (context s) s)
    by (subst s1; unfold step; now rewrite Hv).
  rewrite Hs1; cbn. repeat split.
  all: apply stopped_ignored, run_invariant.
  all: try (intros; now apply step_stopped).
  all: split; [exact (reachable_childStarted rc rd ct s Hreach a Ha) | reflexivity].
Qed.

(** A fetch is cancelled and a new one started; the first operation then
    resolves with ["late"]. *)
Lemma cancel_discards_resolution_witness :
  let s := step 0 (createDataFetchMachine 0 1000 0) FETCH in
  let s2 := run (step 5 s CANCEL) [(7, FETCH)] in
  value (step 5 s CANCEL) = Idle /\
  step 9 s2 (DoneFetchData 0 (JStr "late")) = s2.
Proof.
  intros s s2.
  assert (Hreach : reachable 0 1000 0 s) by (exists [(0, FETCH)]; reflexivity).
  destruct (cancel_discards_resolution 0 1000 0 s 0%nat 5 Hreach eq_refl eq_refl)
    as (Hidle & _ & _ & Hlate).
  split; [exact Hidle |].
  exact (proj1 (Hlate [(7, FETCH)] 9) (JStr "late")).
Defined.

End DataFetchFacts.

(** * Properties of the paginated machine *)

Module PaginatedFacts.
Import PaginatedFetch.

Ltac case_ifs :=
  repeat match goal with
         | |- context [if ?b then _ else _] => destruct b eqn:?; cbn
         end.

Ltac step_cases s ev :=
  unfold step, settle, enterLoading;
  destruct (value s) eqn:?; destruct ev; cbn;
  case_ifs; cbn.


Lemma paged_reachable_invariant (lim : Z) (P : Snapshot -> Prop) :
  P (createPaginatedFetchMachine lim) ->
  (forall s ev, P s -> P (step s ev)) ->
  forall s, reachable lim s -> P s.
Proof.
  intros H0 Hstep s [evs <-].
  generalize dependent (createPaginatedFetchMachine lim).
  induction evs as [|ev evs IH]; intros s0 H0; cbn; auto.
Qed.


(** No action assigns [limit]. *)
Lemma reachable_limit (lim : Z) (s : Snapshot) :
  reachable lim s -> limit (context s) = lim.
Proof.
  apply (paged_reachable_invariant lim (fun s => limit (context s) = lim));
    [reflexivity |].
  intros s0 ev H. step_cases s0 ev; auto.
  all: rewrite H; match goal with Hv : value _ = _ |- _ => now rewrite Hv end.
Qed.

Lemma reachable_flag (lim : Z) (s : Snapshot) :
  reachable lim s -> loading (context s) = flagOf (value s).
Proof.
  apply (paged_reachable_invariant lim
           (fun s => loading (context s) = flagOf (value s)));
    [reflexivity |].
  intros s0 ev H. step_cases s0 ev; auto.
  all: rewrite H; match goal with Hv : value _ = _ |- _ => now rewrite Hv end.
Qed.

Lemma reachable_input (lim : Z) (s : Snapshot) :
  reachable lim s -> inputOfContext s.
Proof.
  apply paged_reachable_invariant; [reflexivity |].
  unfold inputOfContext. intros s0 ev H.
  step_cases s0 ev; auto.
  all: try (eexists; repeat split; reflexivity).
  all: match goal with Hv : value _ = _ |- _ => rewrite Hv in *; cbn in *; auto end.
Qed.

Lemma paged_isChild_running (s : Snapshot) (inv : Invocation) :
  child s = Some inv -> isChild s (actorId inv) = true.
Proof.
  unfold isChild; intros ->. apply Nat.eqb_refl.
Qed.

(** What the [onDone] transition of [loading] produces. *)
Lemma paged_step_done (s : Snapshot) (inv : Invocation) (out : PageResult) :
  value s = Loading -> child s = Some inv ->
  let ev := DoneFetchPage (actorId inv) out in
  step s ev =
  settle Idle (clearLoading (updatePagination (appendItems (context s) ev) ev)) s.
Proof.
  intros Hv Hinv ev. unfold step. subst ev.
  now rewrite Hv, (paged_isChild_running s inv Hinv).
Qed.

(** ** The [loading] flag *)

(** C10.  In every reachable snapshot the context field [loading] is true
    exactly when the machine is in the [loading] state; in [idle] and
    [error] it is false. *)
Theorem loading_flag_tracks_state :
  forall (lim : Z) (s : Snapshot),
    reachable lim s ->
    (value s = Loading <-> loading (context s) = true) /\
    (value s = Idle \/ value s = Error -> loading (context s) = false).
Proof.
  intros lim s Hreach.
  rewrite (reachable_flag lim s Hreach).
  destruct (value s); cbn; repeat split; auto; try discriminate.
  all: intros [H | H]; discriminate H.
Qed.

(** The flag after a page load has started, has succeeded, and after a
    second one has failed. *)
Lemma loading_flag_tracks_state_witness :
  let s1 := run defaultMachine [LOAD_PAGE 1] in
  let s2 := run defaultMachine [LOAD_PAGE 1; DoneFetchPage 0 (pageOf 20 45)] in
  let s3 := run defaultMachine [LOAD_PAGE 1; DoneFetchPage 0 (pageOf 20 45);
                                LOAD_MORE; ErrorFetchPage 1 (Some "down"%string)] in
  loading (context s1) = true /\
  loading (context s2) = false /\
  loading (context s3) = false.
Proof.
  intros s1 s2 s3.
  assert (H1 : reachable 20 s1) by (eexists; reflexivity).
  assert (H2 : reachable 20 s2) by (eexists; reflexivity).
  assert (H3 : reachable 20 s3) by (eexists; reflexivity).
  split; [| split].
  - exact (proj1 (proj1 (loading_flag_tracks_state 20 s1 H1)) eq_refl).
  - exact (proj2 (loading_flag_tracks_state 20 s2 H2) (or_introl eq_refl)).
  - exact (proj2 (loading_flag_tracks_state 20 s3 H3) (or_intror eq_refl)).
Defined.

(** ** [hasMore] *)

(** [updatePagination] runs after [appendItems]: it adds the length of the
    returned page to the length of the list that already holds that page. *)
Lemma hasMore_after_load (s : Snapshot) (inv : Invocation) (out : PageResult) :
  value s = Loading -> child s = Some inv ->
  let s' := step s (DoneFetchPage (actorId inv) out) in
  value s' = Idle /\
  total (context s') = out_total out /\
  hasMore (context s') =
    (len (items (context s')) + len (out_items out) <? out_total out).
Proof.
  intros Hv Hinv s'. subst s'.
  pose proof (paged_step_done s inv out Hv Hinv) as H. cbv zeta in H. rewrite H.
  cbn. auto.
Qed.

(** C2 at [pageSize = 20], [total = 45].  After page 1 the list has 20 items
    and [hasMore] is true.  After page 2 the list has 40 items, fewer than
    45, and [hasMore] is false: the machine computes [40 + 20 < 45].  The
    [LOAD_MORE] for page 3 is then refused by its guard. *)
Theorem hasMore_false_after_second_page :
  let s1 := run defaultMachine [LOAD_PAGE 1; DoneFetchPage 0 (pageOf 20 45)] in
  let s2 := run s1 [LOAD_MORE; DoneFetchPage 1 (pageOf 20 45)] in
  (len (items (context s1)) = 20 /\ hasMore (context s1) = true) /\
  (len (items (context s2)) = 40 /\ total (context s2) = 45 /\
   hasMore (context s2) = false /\
   (len (items (context s2)) <? total (context s2)) = true) /\
  step s2 LOAD_MORE = s2.
Proof.
  cbv zeta. vm_compute. repeat split.
Qed.

(** ** Replacing and appending *)

(** C7, as the machine has it.  A successful load whose target page is 1
    replaces [items] with the returned items; one whose target page is not
    1 appends them to [items].  A [LOAD_MORE] accepted in [idle] starts a
    load of page [page + 1].  A [LOAD_MORE] accepted in [error] starts a
    load of the current [page] again: the transition has no
    [incrementPage]. *)
Theorem load_more_targets :
  forall (lim : Z) (s : Snapshot),
    reachable lim s ->
    (forall (inv : Invocation) (out : PageResult),
        value s = Loading -> child s = Some inv ->
        let s' := step s (DoneFetchPage (actorId inv) out) in
        (in_page inv = 1 -> items (context s') = out_items out) /\
        (in_page inv <> 1 ->
         items (context s') = items (context s) ++ out_items out)) /\
    (value s = Idle -> hasMore (context s) = true ->
     let s' := step s LOAD_MORE in
     value s' = Loading /\
     items (context s') = items (context s) /\
     exists inv, child s' = Some inv /\ in_page inv = page (context s) + 1) /\
    (value s = Error -> hasMore (context s) = true ->
     let s' := step s LOAD_MORE in
     value s' = Loading /\
     items (context s') = items (context s) /\
     exists inv, child s' = Some inv /\ in_page inv = page (context s)).
Proof.
  intros lim s Hreach.
  pose proof (reachable_input lim s Hreach) as Hin.
  pose proof (reachable_flag lim s Hreach) as Hflag.
  unfold inputOfContext in Hin.
  split; [| split].
  - intros inv out Hv Hinv s'. subst s'.
    pose proof (paged_step_done s inv out Hv Hinv) as H. cbv zeta in H. rewrite H.
    rewrite Hv in Hin. destruct Hin as (inv' & Hinv' & Hpage & _).
    assert (inv' = inv) by congruence; subst inv'.
    cbn. rewrite <- Hpage. split; intros Hp.
    + rewrite Hp. reflexivity.
    + apply Z.eqb_neq in Hp. now rewrite Hp.
  - intros Hv Hmore s'. subst s'. unfold step.
    rewrite Hv in Hflag |- *. cbn in Hflag. rewrite Hmore, Hflag. cbn.
    repeat split. eexists; split; reflexivity.
  - intros Hv Hmore s'. subst s'. unfold step.
    rewrite Hv, Hmore. cbn.
    repeat split. eexists; split; reflexivity.
Qed.

(** After pages 1 and 2 have loaded, [LOAD_MORE] in [idle] targets page 3. *)
Lemma load_more_targets_witness :
  let s := run defaultMachine
             [LOAD_PAGE 1; DoneFetchPage 0 (pageOf 20 100);
              LOAD_MORE; DoneFetchPage 1 (pageOf 20 100)] in
  page (context s) = 2 /\
  exists inv, child (step s LOAD_MORE) = Some inv /\ in_page inv = 2 + 1.
Proof.
  intros s.
  assert (Hreach : reachable 20 s) by (eexists; reflexivity).
  destruct (load_more_targets 20 s Hreach) as (_ & Hidle & _).
  destruct (Hidle eq_refl eq_refl) as (_ & _ & Hinv).
  split; [reflexivity | exact Hinv].
Defined.

(** C7 as stated fails for a [LOAD_MORE] accepted in [error]: after a
    failed reload of page 1 it targets page 1 again, not page 2, and the
    page it returns replaces the items loaded before. *)
Lemma load_more_in_error_keeps_page :
  let first := {| out_items := [JStr "a"]; out_total := 5 |} in
  let second := {| out_items := [JStr "b"]; out_total := 5 |} in
  let s := run defaultMachine
             [LOAD_PAGE 1; DoneFetchPage 0 first;
              LOAD_PAGE 1; ErrorFetchPage 1 (Some "down"%string)] in
  let s' := step s LOAD_MORE in
  value s = Error /\
  page (context s) = 1 /\
  items (context s) = [JStr "a"] /\
  child s' = Some {| actorId := 2; in_page := 1; in_limit := 20 |} /\
  child s' <> Some {| actorId := 2; in_page := page (context s) + 1; in_limit := 20 |} /\
  items (context (step s' (DoneFetchPage 2 second))) = [JStr "b"] /\
  items (context (step s' (DoneFetchPage 2 second))) <>
    items (context s) ++ [JStr "b"].
Proof.
  cbn. repeat split; discriminate.
Qed.

End PaginatedFacts.

(** * Reset, for both machines *)

(** C6, as the machines have it.  Every state but [loading] handles
    [RESET]: received in [idle], [cached], [retrying], [success] or [error]
    of the single-fetch machine, or in [idle] or [error] of the paginated
    machine, it moves the machine to [idle] with the context it was built
    with. *)
Theorem reset_restores_initial_context :
  (forall (rc rd ct : Z) (s : DataFetch.Snapshot) (now : Z),
      DataFetch.reachable rc rd ct s ->
      In (DataFetch.value s)
         [DataFetch.Idle; DataFetch.Cached; DataFetch.Retrying;
          DataFetch.Success; DataFetch.Error] ->
      let s' := DataFetch.step now s DataFetch.RESET in
      DataFetch.value s' = DataFetch.Idle /\
      DataFetch.context s' = DataFetch.initialContext rc rd ct) /\
  (forall (lim : Z) (s : PaginatedFetch.Snapshot),
      PaginatedFetch.reachable lim s ->
      In (PaginatedFetch.value s) [PaginatedFetch.Idle; PaginatedFetch.Error] ->
      let s' := PaginatedFetch.step s PaginatedFetch.RESET in
      PaginatedFetch.value s' = PaginatedFetch.Idle /\
      PaginatedFetch.context s' = PaginatedFetch.initialContext lim).
Proof.
  split.
  - intros rc rd ct s now Hreach Hin s'. subst s'.
    destruct (DataFetchFacts.reachable_config rc rd ct s Hreach) as (Hm & Hd & Hc).
    assert (Hreset : DataFetch.resetContext (DataFetch.context s) =
                     DataFetch.initialContext rc rd ct).
    { unfold DataFetch.resetContext, DataFetch.initialContext.
      now rewrite Hm, Hd, Hc. }
    cbn in Hin.
    destruct Hin as [Hv | [Hv | [Hv | [Hv | [Hv | []]]]]];
      unfold DataFetch.step; rewrite <- Hv; cbn; rewrite Hreset; auto.
  - intros lim s Hreach Hin s'. subst s'.
    pose proof (PaginatedFacts.reachable_limit lim s Hreach) as Hl.
    assert (Hreset : PaginatedFetch.resetPaginationContext (PaginatedFetch.context s) =
                     PaginatedFetch.initialContext lim).
    { unfold PaginatedFetch.resetPaginationContext, PaginatedFetch.initialContext.
      now rewrite Hl. }
    cbn in Hin.
    destruct Hin as [Hv | [Hv | []]];
      unfold PaginatedFetch.step; rewrite <- Hv; cbn; rewrite Hreset; auto.
Qed.

(** [RESET] after a successful fetch, and after a failed page load. *)
Lemma reset_restores_initial_context_witness :
  let s := DataFetch.run (DataFetch.createDataFetchMachine 2 100 1000)
             [(0, DataFetch.FETCH); (10, DataFetch.DoneFetchData 0 (JStr "A"))] in
  let p := PaginatedFetch.run (PaginatedFetch.createPaginatedFetchMachine 20)
             [PaginatedFetch.LOAD_PAGE 3;
              PaginatedFetch.ErrorFetchPage 0 (Some "down"%string)] in
  DataFetch.context (DataFetch.step 20 s DataFetch.RESET) =
    DataFetch.initialContext 2 100 1000 /\
  PaginatedFetch.context (PaginatedFetch.step p PaginatedFetch.RESET) =
    PaginatedFetch.initialContext 20.
Proof.
  intros s p.
  destruct reset_restores_initial_context as [Hsingle Hpaged].
  assert (Hs : DataFetch.reachable 2 100 1000 s) by (eexists; reflexivity).
  assert (Hp : PaginatedFetch.reachable 20 p) by (eexists; reflexivity).
  split.
  - refine (proj2 (Hsingle 2 100 1000 s 20 Hs _)).
    cbn. do 3 right. left. reflexivity.
  - refine (proj2 (Hpaged 20 p Hp _)).
    cbn. right. left. reflexivity.
Defined.

(** C6 as stated fails in [loading]: neither machine handles [RESET]
    there.  The single-fetch machine stays in [loading] with its fetch in
    flight; the paginated machine stays in [loading] with [page = 3] and
    [loading = true]. *)
Lemma reset_ignored_in_loading :
  let s := DataFetch.step 0 (DataFetch.createDataFetchMachine 2 100 1000)
             DataFetch.FETCH in
  let p := PaginatedFetch.step (PaginatedFetch.createPaginatedFetchMachine 20)
             (PaginatedFetch.LOAD_PAGE 3) in
  (DataFetch.value s = DataFetch.Loading /\
   DataFetch.step 1 s DataFetch.RESET = s /\
   DataFetch.value (DataFetch.step 1 s DataFetch.RESET) <> DataFetch.Idle) /\
  (PaginatedFetch.value p = PaginatedFetch.Loading /\
   PaginatedFetch.step p PaginatedFetch.RESET = p /\
   PaginatedFetch.value (PaginatedFetch.step p PaginatedFetch.RESET)
     <> PaginatedFetch.Idle /\
   PaginatedFetch.context (PaginatedFetch.step p PaginatedFetch.RESET)
     <> PaginatedFetch.initialContext 20).
Proof.
  cbn. repeat split; discriminate.
Qed.

(** * Further properties of the single-fetch machine *)

Module DataFetchMoreFacts.
Import DataFetch DataFetchFacts DataFetchMore.

Lemma step_cacheMirrorsData (now : Z) (s : Snapshot) (ev : FetchEvent) :
  cacheMirrorsData s -> cacheMirrorsData (step now s ev).
Proof.
  unfold cacheMirrorsData; intros H. step_cases s ev; auto.
  all: intros entry He; try discriminate He.
  - destruct (H entry He) as [Ht Hd]. rewrite He. unfold orNull.
    rewrite Ht. auto.
  - injection He as <-; cbn. split; [| reflexivity].
    match goal with
    | Hb : (_ && _)%bool = true |- _ => now apply andb_prop in Hb
    end.
Qed.

(** X1.  In every reachable snapshot a cache entry, when there is one,
    holds a truthy value and that value is the current [data]. *)
Theorem cache_mirrors_data :
  forall (rc rd ct : Z) (s : Snapshot) (entry : CacheEntry),
    reachable rc rd ct s ->
    cache (context s) = Some entry ->
    truthy (cdata entry) = true /\
    getData s = cdata entry /\
    hasData s = true.
Proof.
  intros rc rd ct s entry Hreach Hc.
  assert (Hinv : cacheMirrorsData s).
  { apply (reachable_invariant rc rd ct cacheMirrorsData);
      [intros e; discriminate
      | intros; now apply step_cacheMirrorsData
      | exact Hreach]. }
  destruct (Hinv entry Hc) as [Ht Hd].
  unfold getData, hasData. rewrite Hd. repeat split; auto.
  destruct (cdata entry); auto; discriminate.
Qed.

Lemma cache_mirrors_data_witness :
  let s := run (createDataFetchMachine 0 1000 1000)
             [(0, FETCH); (3, DoneFetchData 0 (JStr "A")); (100, FETCH)] in
  getData s = JStr "A".
Proof.
  intros s.
  assert (Hreach : reachable 0 1000 1000 s) by (eexists; reflexivity).
  exact (proj1 (proj2 (cache_mirrors_data 0 1000 1000 s
                         {| cdata := JStr "A"; timestamp := 3 |} Hreach eq_refl))).
Defined.

(** X2.  With [cacheTime <= 0] no reachable snapshot has a cache entry or
    is in [cached], and a [FETCH] received in [idle] always starts a
    fetch. *)
Theorem cache_disabled_never_caches :
  forall (rc rd ct : Z) (s : Snapshot),
    ct <= 0 -> reachable rc rd ct s ->
    cache (context s) = None /\
    value s <> Cached /\
    (forall now, value s = Idle ->
       value (step now s FETCH) = Loading /\
       child (step now s FETCH) = Some (nextId s)).
Proof.
  intros rc rd ct s Hct Hreach.
  assert (Hinv : cacheTime (context s) = ct /\ cache (context s) = None /\
                 value s <> Cached).
  { revert s Hreach.
    apply (reachable_invariant rc rd ct
             (fun s => cacheTime (context s) = ct /\ cache (context s) = None /\
                       value s <> Cached)).
    - cbn. repeat split. discriminate.
    - intros now s ev (H1 & H2 & H3). step_cases s ev; auto.
      all: repeat split; auto; try discriminate; try congruence.
      all: try (exfalso;
                match goal with
                | Hb : (_ >? _) = true |- _ => apply Z.gtb_lt in Hb; lia
                | Hb : (_ && _)%bool = true |- _ =>
                    apply andb_prop in Hb; destruct Hb as [Hb _];
                    apply Z.gtb_lt in Hb; lia
                end). }
  destruct Hinv as (Hc & Hnone & Hv). repeat split; auto.
  all: intros; unfold step;
    match goal with Hi : value _ = Idle |- _ => rewrite Hi end;
    assert (Hle : (cacheTime (context s) >? 0) = false)
      by (rewrite Z.gtb_ltb; apply Z.ltb_ge; lia);
    now rewrite Hle.
Qed.

Lemma cache_disabled_never_caches_witness :
  let s := run defaultMachine [(0, FETCH); (3, DoneFetchData 0 (JStr "A"))] in
  cache (context s) = None.
Proof.
  intros s.
  assert (Hreach : reachable 0 1000 0 s) by (eexists; reflexivity).
  assert (Hct : 0 <= 0) by (intros H; discriminate H).
  exact (proj1 (cache_disabled_never_caches 0 1000 0 s Hct Hreach)).
Defined.

(** X3.  With [retryCount <= 0] the machine never retries: [retries] stays
    0, [retrying] is never entered, and every failure in [loading] moves
    the machine to [error]. *)
Theorem no_budget_no_retry :
  forall (rc rd ct : Z) (s : Snapshot),
    rc <= 0 -> reachable rc rd ct s ->
    retries (context s) = 0 /\
    value s <> Retrying /\
    (forall now a e, value s = Loading -> child s = Some a ->
       value (step now s (ErrorFetchData a e)) = Error).
Proof.
  intros rc rd ct s Hrc Hreach.
  assert (Hinv : maxRetries (context s) = rc /\ retries (context s) = 0 /\
                 value s <> Retrying).
  { revert s Hreach.
    apply (reachable_invariant rc rd ct
             (fun s => maxRetries (context s) = rc /\ retries (context s) = 0 /\
                       value s <> Retrying)).
    - cbn. repeat split. discriminate.
    - intros now s ev (H1 & H2 & H3). step_cases s ev; auto.
      all: repeat split; auto; try discriminate; try congruence.
      all: exfalso;
        match goal with
        | Hb : (_ <? _) = true |- _ => apply Z.ltb_lt in Hb; lia
        end. }
  destruct Hinv as (Hm & Hr & Hv). repeat split; auto.
  intros now a e Hl Ha. rewrite (step_error now s a e Hl Ha).
  assert (Hge : (retries (context s) <? maxRetries (context s)) = false)
    by (apply Z.ltb_ge; lia).
  now rewrite Hge.
Qed.

Lemma no_budget_no_retry_witness :
  let s := step 0 defaultMachine FETCH in
  value (step 5 s (ErrorFetchData 0 (Some "down"%string))) = Error.
Proof.
  intros s.
  assert (Hreach : reachable 0 1000 0 s) by (exists [(0, FETCH)]; reflexivity).
  assert (Hrc : 0 <= 0) by (intros H; discriminate H).
  exact (proj2 (proj2 (no_budget_no_retry 0 1000 0 s Hrc Hreach))
           5 0%nat (Some "down"%string) eq_refl eq_refl).
Defined.

Lemma step_settledStatus (now : Z) (s : Snapshot) (ev : FetchEvent) :
  cacheMirrorsData s -> settledStatus s -> settledStatus (step now s ev).
Proof.
  unfold cacheMirrorsData, settledStatus; intros Hm H.
  step_cases s ev; auto; try discriminate.
  all: try match goal with
           | Hv : value _ = _ |- _ => rewrite Hv; exact H
           end.
  all: try match goal with
           | Hb : (_ <? _) = false |- _ => apply Z.ltb_ge in Hb; exact Hb
           end.
  (* the cache hit *)
  unfold cacheIsFresh in *.
  destruct (cache (context s)) as [entry |] eqn:Hc; [| discriminate].
  destruct (Hm entry eq_refl) as [Ht _].
  split; [reflexivity |]. exists entry. unfold orNull. now rewrite Ht.
Qed.

(** X4.  In every reachable snapshot: in [success] there is no error and
    [retries] is 0; in [error] the retry budget is used up
    ([retries >= maxRetries]); in [cached] there is no error and [data] is
    the cached value, which is not null ([hasData]).  No snapshot rests in
    [checkingCache].  (Nothing is said of [hasError] in [error]: the
    recorded error is the rejection reason as it came, which may be null.) *)
Theorem settled_states_status :
  forall (rc rd ct : Z) (s : Snapshot),
    reachable rc rd ct s ->
    value s <> CheckingCache /\
    (value s = Success -> hasError s = false /\ retries (context s) = 0) /\
    (value s = Error -> maxRetries (context s) <= retries (context s)) /\
    (value s = Cached ->
     hasError s = false /\ hasData s = true /\
     exists entry, cache (context s) = Some entry /\ getData s = cdata entry).
Proof.
  intros rc rd ct s Hreach.
  assert (Hinv : cacheMirrorsData s /\ settledStatus s).
  { apply (reachable_invariant rc rd ct
             (fun s => cacheMirrorsData s /\ settledStatus s));
      [ | | exact Hreach].
    - split; [intros e; discriminate | exact I].
    - intros now s0 ev [Hm Hs]. split.
      + now apply step_cacheMirrorsData.
      + now apply step_settledStatus. }
  destruct Hinv as [Hm Hs]. unfold settledStatus in Hs.
  unfold hasError, hasData, getData.
  split; [| split; [| split]].
  - intros Hv. now rewrite Hv in Hs.
  - intros Hv. rewrite Hv in Hs. destruct Hs as [-> ->]. auto.
  - intros Hv. now rewrite Hv in Hs.
  - intros Hv. rewrite Hv in Hs. destruct Hs as (-> & entry & Hc & Hd).
    destruct (Hm entry Hc) as [Ht _]. rewrite Hd.
    repeat split.
    + destruct (cdata entry); auto; discriminate.
    + now exists entry.
Qed.

(** After a successful fetch there is no error, whatever failed before. *)
Lemma settled_states_status_witness :
  let s := run (createDataFetchMachine 0 1000 0)
             [(0, FETCH); (5, ErrorFetchData 0 (Some "down"%string));
              (9, FETCH); (12, DoneFetchData 1 (JStr "A"))] in
  hasError s = false /\ retries (context s) = 0.
Proof.
  intros s.
  assert (Hreach : reachable 0 1000 0 s) by (eexists; reflexivity).
  destruct (settled_states_status 0 1000 0 s Hreach) as (_ & Hok & _).
  exact (Hok eq_refl).
Defined.

(** X5.  An error, once recorded, is cleared by four transitions only: a
    successful fetch, a cache hit, an accepted [RESET], and the terminal
    failure of a fetch whose promise was rejected with [null] (the machine
    is then in [error] with a null error).  In particular the [FETCH] or
    [RETRY] that leaves [error] keeps the error while the new fetch is in
    flight. *)
Theorem error_cleared_only_by :
  forall (now : Z) (s : Snapshot) (ev : FetchEvent),
    DataFetch.error (context s) <> None ->
    DataFetch.error (context (step now s ev)) = None ->
    (exists a v, ev = DoneFetchData a v /\ value (step now s ev) = Success) \/
    (ev = FETCH /\ value s = Idle /\ value (step now s ev) = Cached) \/
    (ev = RESET /\ value (step now s ev) = Idle) \/
    (exists a, ev = ErrorFetchData a None /\ value s = Loading /\
               value (step now s ev) = Error).
Proof.
  intros now s ev Hsome. step_cases s ev; intros Hnone; try contradiction.
  all: try discriminate Hnone.
  all: try (right; right; left; split; reflexivity).
  - right; left. repeat split.
  - left. eexists; eexists; split; reflexivity.
  - right; right; right. subst reason. eexists. repeat split.
Qed.

(** A failed fetch is retried by [FETCH]; the error is cleared when the
    new fetch resolves. *)
Lemma error_cleared_only_by_witness :
  let s := run (createDataFetchMachine 0 1000 0)
             [(0, FETCH); (5, ErrorFetchData 0 (Some "down"%string)); (9, FETCH)] in
  let ev := DoneFetchData 1 (JStr "A") in
  getError s = Some "down"%string /\
  ((exists a v, ev = DoneFetchData a v /\ value (step 12 s ev) = Success) \/
   (ev = FETCH /\ value s = Idle /\ value (step 12 s ev) = Cached) \/
   (ev = RESET /\ value (step 12 s ev) = Idle) \/
   (exists a, ev = ErrorFetchData a None /\ value s = Loading /\
              value (step 12 s ev) = Error)).
Proof.
  intros s ev. split; [reflexivity |].
  apply (error_cleared_only_by 12 s ev); [discriminate | reflexivity].
Defined.

Lemma step_pendingWork (now : Z) (s : Snapshot) (ev : FetchEvent) :
  pendingWork s -> pendingWork (step now s ev).
Proof.
  unfold pendingWork; intros [Hr H].
  step_cases s ev.
  all: try match goal with
           | Hv : value _ = _ |- _ => rewrite Hv; split; [exact Hr | exact H]
           end.
  all: repeat match goal with
              | Hb : (_ <? _) = true |- _ => apply Z.ltb_lt in Hb
              end.
  all: repeat split; eauto; try lia; try tauto.
Qed.

Lemma reachable_pendingWork (rc rd ct : Z) (s : Snapshot) :
  reachable rc rd ct s -> pendingWork s.
Proof.
  apply reachable_invariant.
  - unfold pendingWork; cbn. repeat split. lia.
  - intros; now apply step_pendingWork.
Qed.



(** X7.  In every reachable [retrying] snapshot the pending delay is
    [retryDelay * (retries + 1)] with [1 <= retries <= maxRetries],
    whatever the sign of [retryDelay].  So with [retryDelay >= 0] every
    delay the machine schedules lies between [2 * retryDelay] and
    [(retryCount + 1) * retryDelay], and with [retryDelay <= 0] between
    [(retryCount + 1) * retryDelay] and [2 * retryDelay]. *)
Theorem retrying_delay_bounds :
  forall (rc rd ct : Z) (s : Snapshot),
    reachable rc rd ct s -> value s = Retrying ->
    exists d,
      timer s = Some d /\
      d = rd * (retries (context s) + 1) /\
      1 <= retries (context s) <= rc /\
      (0 <= rd -> 2 * rd <= d <= (rc + 1) * rd) /\
      (rd <= 0 -> (rc + 1) * rd <= d <= 2 * rd).
Proof.
  intros rc rd ct s Hreach Hv.
  destruct (reachable_pendingWork rc rd ct s Hreach) as [_ H].
  destruct (reachable_config rc rd ct s Hreach) as (Hm & Hd & _).
  rewrite Hv in H. destruct H as (_ & Ht & Hr).
  unfold delayedRetry in Ht. rewrite Hd in Ht. rewrite Hm in Hr.
  eexists. split; [exact Ht |]. repeat split; try lia; nia.
Qed.

(** [retryDelay = 100]: the second retry waits 300.  [retryDelay = -100]:
    the first retry is scheduled with -200. *)
Lemma retrying_delay_bounds_witness :
  let s := run (createDataFetchMachine 2 100 0)
             [(0, FETCH); (5, ErrorFetchData 0 (Some "down"%string));
              (205, AfterDelayedRetry);
              (210, ErrorFetchData 1 (Some "down"%string))] in
  let s' := run (createDataFetchMachine 2 (-100) 0)
              [(0, FETCH); (5, ErrorFetchData 0 (Some "down"%string))] in
  (exists d, timer s = Some d /\ 2 * 100 <= d <= (2 + 1) * 100) /\
  (exists d, timer s' = Some d /\ d = -100 * (retries (context s') + 1)).
Proof.
  intros s s'.
  assert (Hreach : reachable 2 100 0 s) by (eexists; reflexivity).
  assert (Hreach' : reachable 2 (-100) 0 s') by (eexists; reflexivity).
  assert (Hrd : 0 <= 100) by (intros H; discriminate H).
  destruct (retrying_delay_bounds 2 100 0 s Hreach eq_refl)
    as (d & Ht & _ & _ & Hb & _).
  destruct (retrying_delay_bounds 2 (-100) 0 s' Hreach' eq_refl)
    as (d' & Ht' & Hd' & _).
  split.
  - exists d. split; [exact Ht | exact (Hb Hrd)].
  - exists d'. split; assumption.
Defined.



Lemma step_unhandled (now : Z) (s : Snapshot) (ev : FetchEvent) :
  unhandled ev = true -> step now s ev = s.
Proof.
  destruct ev; try discriminate; intros _; unfold step; now destruct (value s).
Qed.

(** X9.  [SUCCESS] and [FAILURE] are declared events that no state
    handles: dropping them from a run does not change the snapshot it
    ends in. *)
Theorem unhandled_events_dropped :
  forall (evs : list (Z * FetchEvent)) (s : Snapshot),
    run s evs = run s (filter (fun p => negb (unhandled (snd p))) evs).
Proof.
  induction evs as [| [now ev] evs IH]; intros s; cbn; [reflexivity |].
  destruct (unhandled ev) eqn:Hu; cbn.
  - rewrite (step_unhandled now s ev Hu). apply IH.
  - apply IH.
Qed.

End DataFetchMoreFacts.

(** * Properties of the hooks *)

Module UseDataFetchFacts.
Import DataFetch UseDataFetch.

Lemma deliver_sameButCacheTime (autoFetch : bool) (now : Z) (s s' : Snapshot) (i : Input) :
  sameButCacheTime s s' ->
  sameButCacheTime (deliver autoFetch now s i) (deliver autoFetch now s' i).
Proof.
  destruct s as [v c ch t n], s' as [v' c' ch' t' n'].
  destruct c as [d e r m rd ca ct], c' as [d' e' r' m' rd' ca' ct'].
  unfold sameButCacheTime; cbn.
  intros (Hv & Hd & He & Hr & Hm & Hrd & Hch & Ht & Hn & Hcached & Hidle).
  subst v' d' e' r' m' rd' ch' t' n'.
  unfold deliver, eventOf.
  destruct i; try destruct autoFetch; destruct v;
    try (specialize (Hidle eq_refl); destruct Hidle; subst ca ca');
    try (now elim Hcached);
    unfold step, checkingCache, cacheIsFresh, isChild, settle, enterLoading,
      enterRetrying; cbn;
    DataFetchFacts.case_ifs; cbn;
    repeat split; auto; try discriminate; intros Habs; discriminate Habs.
Qed.

(** X10.  Driven by [useDataFetch] (which sends [FETCH] and [RESET] only)
    the [cacheTime] option cannot be observed: two hooks that differ in
    [cacheTime] alone and receive the same inputs return the same [data],
    [loading] and [error], are in the same state, and have invoked the
    Fetch Operation the same number of times.  Neither ever reaches
    [cached]. *)
Theorem hook_cacheTime_unobservable :
  forall (autoFetch : bool) (rc rd ct ct' : Z) (ins : list (Z * Input)),
    let s := hookRun autoFetch (createDataFetchMachine rc rd ct) ins in
    let s' := hookRun autoFetch (createDataFetchMachine rc rd ct') ins in
    useDataFetch s = useDataFetch s' /\
    value s = value s' /\
    nextId s = nextId s' /\
    value s <> Cached.
Proof.
  intros autoFetch rc rd ct ct' ins.
  assert (H0 : sameButCacheTime (createDataFetchMachine rc rd ct)
                                (createDataFetchMachine rc rd ct')).
  { unfold sameButCacheTime; cbn. repeat split; auto. discriminate. }
  revert H0.
  generalize (createDataFetchMachine rc rd ct) (createDataFetchMachine rc rd ct').
  induction ins as [| [now i] ins IH]; intros s0 s0' H0; cbn.
  - destruct H0 as (Hv & Hd & He & _ & _ & _ & _ & _ & Hn & Hc & _).
    unfold useDataFetch, DataFetchMore.getData, DataFetchMore.getError, isLoading.
    rewrite Hd, He, Hv. repeat split; auto. now rewrite <- Hv.
  - apply IH. now apply deliver_sameButCacheTime.
Qed.

Lemma deliver_freshWhenSettled (autoFetch : bool) (now : Z) (s : Snapshot) (i : Input) :
  freshWhenSettled s -> freshWhenSettled (deliver autoFetch now s i).
Proof.
  unfold freshWhenSettled, deliver, eventOf; intros H.
  destruct i; try destruct autoFetch; destruct (value s) eqn:Hv;
    unfold step, checkingCache, settle, enterLoading, enterRetrying;
    rewrite ?Hv; cbn; DataFetchFacts.case_ifs; cbn; rewrite ?Hv; auto.
Qed.

Lemma sameButCacheTime_refl (rc rd ct : Z) :
  sameButCacheTime (createDataFetchMachine rc rd ct) (createDataFetchMachine rc rd ct).
Proof.
  unfold sameButCacheTime; cbn. repeat split; auto. discriminate.
Qed.

Lemma hookRun_invariant (autoFetch : bool) (P : Snapshot -> Prop) :
  (forall now s i, P s -> P (deliver autoFetch now s i)) ->
  forall ins s, P s -> P (hookRun autoFetch s ins).
Proof.
  intros Hstep ins; induction ins as [| [now i] ins IH]; intros s Hs; cbn; auto.
Qed.

(** X18.  Driven by [useDataFetch], every fetch that [refetch] starts has
    the whole retry budget: whenever the machine is not already fetching
    or waiting to retry, [refetch] moves it to [loading], invokes the
    Fetch Operation, and [retries] is 0. *)
Theorem hook_refetch_full_budget :
  forall (autoFetch : bool) (rc rd ct : Z) (ins : list (Z * Input)) (now : Z),
    let s := hookRun autoFetch (createDataFetchMachine rc rd ct) ins in
    isLoading s = false ->
    let s' := deliver autoFetch now s Refetch in
    value s' = Loading /\
    child s' = Some (nextId s) /\
    retries (context s') = 0 /\
    maxRetries (context s') = rc.
Proof.
  intros autoFetch rc rd ct ins now s Hidle s'.
  assert (Hinv : freshWhenSettled s /\ sameButCacheTime s s /\
                 DataFetch.configOf rc rd ct s /\
                 DataFetchMore.settledStatus s /\ DataFetchMore.cacheMirrorsData s).
  { subst s.
    apply (hookRun_invariant autoFetch
             (fun s => freshWhenSettled s /\ sameButCacheTime s s /\
                       DataFetch.configOf rc rd ct s /\
                       DataFetchMore.settledStatus s /\
                       DataFetchMore.cacheMirrorsData s)).
    - intros t s0 i (H1 & H2 & H3 & H4 & H5).
      split; [| split; [| split; [| split]]].
      + now apply deliver_freshWhenSettled.
      + now apply deliver_sameButCacheTime.
      + unfold deliver. destruct (eventOf autoFetch i); auto.
        now apply DataFetchFacts.step_config.
      + unfold deliver. destruct (eventOf autoFetch i); auto.
        now apply DataFetchMoreFacts.step_settledStatus.
      + unfold deliver. destruct (eventOf autoFetch i); auto.
        now apply DataFetchMoreFacts.step_cacheMirrorsData.
    - split; [| split; [| split; [| split]]].
      + reflexivity.
      + apply sameButCacheTime_refl.
      + now cbv.
      + exact I.
      + intros e; discriminate. }
  destruct Hinv as (Hfresh & Hsame & (Hm & _ & _) & Hst & _).
  destruct Hsame as (_ & _ & _ & _ & _ & _ & _ & _ & _ & Hcached & Hcache).
  unfold freshWhenSettled in Hfresh. unfold DataFetchMore.settledStatus in Hst.
  unfold isLoading in Hidle.
  subst s'. unfold deliver, eventOf, step, checkingCache, cacheIsFresh.
  destruct (value s) eqn:Hv; try discriminate Hidle; try contradiction;
    try (now elim Hcached).
  - destruct (Hcache eq_refl) as [Hnone _]. rewrite Hnone.
    destruct (cacheTime (context s) >? 0); cbn; auto.
  - cbn. auto.
  - cbn. auto.
Qed.

Lemma hook_refetch_full_budget_witness :
  let s := hookRun true (createDataFetchMachine 2 100 0)
             [(0, DepsChanged); (5, Rejected 0 (Some "down"%string));
              (205, DelayElapsed); (210, Rejected 1 (Some "down"%string));
              (510, DelayElapsed); (515, Rejected 2 (Some "down"%string))] in
  retries (context s) = 2 /\
  retries (context (deliver true 600 s Refetch)) = 0.
Proof.
  intros s. split; [reflexivity |].
  destruct (hook_refetch_full_budget true 2 100 0
              [(0, DepsChanged); (5, Rejected 0 (Some "down"%string));
               (205, DelayElapsed); (210, Rejected 1 (Some "down"%string));
               (510, DelayElapsed); (515, Rejected 2 (Some "down"%string))] 600 eq_refl)
    as (_ & _ & Hr & _).
  exact Hr.
Defined.

End UseDataFetchFacts.

(** * Further properties of the paginated machine *)

Module PaginatedMoreFacts.
Import PaginatedFetch PaginatedFacts PaginatedMore.

(** X11.  After a successful load [hasMore] is true exactly when the
    length of the merged list plus the length of the returned page is
    below the returned total.  So [hasMore = true] is only reported while
    the list is shorter than the total, and for an empty returned page
    [hasMore] is exactly [items.length < total]. *)
Theorem hasMore_never_overstates :
  forall (s : Snapshot) (inv : Invocation) (out : PageResult),
    value s = Loading -> child s = Some inv ->
    let s' := step s (DoneFetchPage (actorId inv) out) in
    (hasMore (context s') = true <->
     len (items (context s')) + len (out_items out) < total (context s')) /\
    (hasMore (context s') = true ->
     len (items (context s')) < total (context s')) /\
    (out_items out = [] ->
     (hasMore (context s') = true <->
      len (items (context s')) < total (context s'))).
Proof.
  intros s inv out Hv Hinv s'. subst s'.
  pose proof (paged_step_done s inv out Hv Hinv) as H. cbv zeta in H. rewrite H.
  cbn. set (merged := if page (context s) =? 1 then _ else _).
  assert (Hlen : 0 <= len (out_items out)) by (unfold len; lia).
  pose proof (Z.ltb_lt (len merged + len (out_items out)) (out_total out))
    as [Hlt Hltb].
  split; [split; assumption |]. split.
  - intros Hmore. apply Hlt in Hmore. lia.
  - intros Hnil. assert (Hzero : len (out_items out) = 0) by now rewrite Hnil.
    split; intros Hmore.
    + apply Hlt in Hmore. lia.
    + apply Hltb. lia.
Qed.

Lemma hasMore_never_overstates_witness :
  let s := run defaultMachine [LOAD_PAGE 1] in
  let s' := step s (DoneFetchPage 0 (pageOf 20 45)) in
  len (items (context s')) < total (context s').
Proof.
  intros s s'.
  destruct (hasMore_never_overstates s
              {| actorId := 0; in_page := 1; in_limit := 20 |} (pageOf 20 45)
              eq_refl eq_refl) as (_ & Hsound & _).
  apply Hsound. reflexivity.
Defined.

(** X12.  A recorded error is cleared by two transitions only: an
    accepted [RESET], and a failed load whose promise was rejected with
    [null].  A later successful load leaves it in the context. *)
Theorem paged_error_sticky :
  forall (s : Snapshot) (ev : PaginatedEvent),
    error (context s) <> None ->
    error (context (step s ev)) = None ->
    (ev = RESET /\ value s <> Loading /\ value (step s ev) = Idle) \/
    (exists a, ev = ErrorFetchPage a None /\ value s = Loading /\
               value (step s ev) = Error).
Proof.
  intros s ev Hsome. step_cases s ev; intros Hnone; try contradiction.
  all: try discriminate Hnone.
  all: try (left; repeat split; discriminate).
  right. subst reason. eexists. repeat split.
Qed.

(** A failed load, then the same page loaded successfully: the hook still
    reports the error. *)
Lemma paged_error_sticky_witness :
  let s := run defaultMachine
             [LOAD_PAGE 1; ErrorFetchPage 0 (Some "down"%string); LOAD_PAGE 1] in
  let ev := DoneFetchPage 1 (pageOf 20 45) in
  error (context (step s ev)) <> None.
Proof.
  intros s ev Hnone.
  assert (Hsome : error (context s) <> None) by discriminate.
  destruct (paged_error_sticky s ev Hsome Hnone) as [[Hev _] | [a [Hev _]]];
    discriminate Hev.
Defined.

(** X13.  While the machine is in [loading] no event starts another
    fetch, and the only events that change the snapshot are the done and
    error events of the running actor: [LOAD_PAGE], [LOAD_MORE] and [RESET]
    are ignored. *)
Theorem loading_single_flight :
  forall (s : Snapshot) (ev : PaginatedEvent),
    value s = Loading ->
    nextId (step s ev) = nextId s /\
    (step s ev <> s ->
     exists inv, child s = Some inv /\
       ((exists out, ev = DoneFetchPage (actorId inv) out) \/
        (exists e, ev = ErrorFetchPage (actorId inv) e))).
Proof.
  intros s ev Hv. unfold step, isChild. rewrite Hv.
  destruct ev; cbn; try (split; [reflexivity | intros H; now elim H]).
  all: destruct (child s) as [inv |] eqn:Hc;
    [| split; [reflexivity | intros H; now elim H]].
  all: destruct (Nat.eqb (actorId inv) actor) eqn:Heq;
    [| split; [reflexivity | intros H; now elim H]].
  all: apply Nat.eqb_eq in Heq; subst actor.
  all: split; [reflexivity | intros _; exists inv; split; [reflexivity |]].
  - left. now exists output.
  - right. now exists reason.
Qed.

Lemma loading_single_flight_witness :
  let s := run defaultMachine [LOAD_PAGE 1] in
  step s LOAD_MORE = s /\ nextId (step s (LOAD_PAGE 2)) = nextId s.
Proof.
  intros s. split.
  - reflexivity.
  - exact (proj1 (loading_single_flight s (LOAD_PAGE 2) eq_refl)).
Defined.

(** X14.  Once [hasMore] is false, [LOAD_MORE] does nothing, however often
    it is sent. *)
Theorem exhausted_load_more_noop :
  forall (s : Snapshot) (n : nat),
    hasMore (context s) = false ->
    run s (repeat LOAD_MORE n) = s.
Proof.
  intros s n Hmore. induction n as [| n IH]; cbn; [reflexivity |].
  assert (Hstep : step s LOAD_MORE = s)
    by (unfold step; destruct (value s); rewrite ?Hmore; reflexivity).
  now rewrite Hstep.
Qed.

Lemma exhausted_load_more_noop_witness :
  let s := run defaultMachine [LOAD_PAGE 1; DoneFetchPage 0 (pageOf 20 20)] in
  run s (repeat LOAD_MORE 3) = s.
Proof.
  intros s. apply (exhausted_load_more_noop s 3). reflexivity.
Defined.

(** X15.  A fetch actor runs only in [loading], and it was started with
    the page of the context and the limit the machine was created with. *)
Theorem fetch_input_is_page_and_limit :
  forall (lim : Z) (s : Snapshot) (inv : Invocation),
    reachable lim s -> child s = Some inv ->
    value s = Loading /\
    in_page inv = page (context s) /\
    in_limit inv = lim.
Proof.
  intros lim s inv Hreach Hinv.
  pose proof (reachable_input lim s Hreach) as Hin.
  pose proof (reachable_limit lim s Hreach) as Hl.
  unfold inputOfContext in Hin.
  destruct (value s); try congruence.
  destruct Hin as (inv' & Hinv' & Hp & Hlim).
  assert (inv' = inv) by congruence; subst inv'.
  repeat split; congruence.
Qed.

Lemma fetch_input_is_page_and_limit_witness :
  let s := run (createPaginatedFetchMachine 50) [LOAD_PAGE 4] in
  in_page {| actorId := 0; in_page := 4; in_limit := 50 |} = page (context s).
Proof.
  intros s.
  assert (Hreach : reachable 50 s) by (eexists; reflexivity).
  exact (proj1 (proj2 (fetch_input_is_page_and_limit 50 s
                         {| actorId := 0; in_page := 4; in_limit := 50 |}
                         Hreach eq_refl))).
Defined.

(** X16.  A [LOAD_MORE] whose fetch fails, retried by [LOAD_MORE] in
    [error], ends with the context the first fetch would have produced had
    it succeeded, except for the [error] field, which holds the reason the
    failed attempt was rejected with: the retry loads the same page, once. *)
Theorem failed_load_more_retry :
  forall (lim : Z) (s : Snapshot) (e : option JsError) (out : PageResult),
    reachable lim s -> value s = Idle -> hasMore (context s) = true ->
    let n := nextId s in
    let direct := run s [LOAD_MORE; DoneFetchPage n out] in
    let retried := run s [LOAD_MORE; ErrorFetchPage n e;
                          LOAD_MORE; DoneFetchPage (S n) out] in
    value direct = Idle /\
    value retried = Idle /\
    context retried = withError e (context direct).
Proof.
  intros lim s e out Hreach Hv Hmore n direct retried.
  pose proof (reachable_flag lim s Hreach) as Hflag.
  rewrite Hv in Hflag; cbn in Hflag.
  assert (Hfirst : step s LOAD_MORE = enterLoading (incrementPage (context s)) s)
    by (unfold step; now rewrite Hv, Hmore, Hflag).
  subst direct retried n. cbn [run]. rewrite Hfirst.
  unfold step, isChild; cbn. rewrite Nat.eqb_refl. cbn.
  rewrite Hmore. cbn. rewrite Nat.eqb_refl. cbn.
  repeat split.
Qed.

Lemma failed_load_more_retry_witness :
  let s := run defaultMachine [LOAD_PAGE 1; DoneFetchPage 0 (pageOf 20 100)] in
  let retried := run s [LOAD_MORE; ErrorFetchPage 1 (Some "down"%string);
                        LOAD_MORE; DoneFetchPage 2 (pageOf 20 100)] in
  value retried = Idle.
Proof.
  intros s retried.
  assert (Hreach : reachable 20 s) by (eexists; reflexivity).
  exact (proj1 (proj2 (failed_load_more_retry 20 s (Some "down"%string) (pageOf 20 100)
                         Hreach eq_refl eq_refl))).
Defined.

End PaginatedMoreFacts.

Module UsePaginatedFetchFacts.
Import PaginatedFetch UsePaginatedFetch.






End UsePaginatedFetchFacts.
